(** * Workflow orchestration engine of the video pipeline

    A shallow embedding of the seven-step workflow engine:
    - [src/types/workflow.ts]: the data model, [STEP_DEFINITIONS],
      [canExecuteStep], [getStepDefinition];
    - the workflow service ([createWorkflow], [getWorkflow], [updateWorkflow],
      [updateStepStatus], [logWorkflowProgress], [startWorkflow],
      [pauseWorkflow], [completeWorkflow], [failWorkflow], ...);
    - the workflow router (the handlers of [POST /], [GET /:id/steps/:step],
      [POST /:id/steps/:step/execute], [POST /:id/start], [POST /:id/pause]).

    The database is an in-memory store threaded through a state and exception
    monad: a table of workflow rows keyed by id, the append-only log table,
    and a trace of the queries issued so far.  The store itself never fails
    for a reason other than a missing or duplicate row.  JavaScript numbers
    are the integers plus NaN ([option Z]); step payloads are opaque JSON
    texts. *)

From Stdlib Require Import Ascii String Sorted.
From stdpp Require Import gmap strings list fin_maps pretty.

Local Open Scope string_scope.
Local Open Scope list_scope.
Local Open Scope Z_scope.

(** ** JavaScript values and helpers *)

Definition Json := string.

Inductive JsValue :=
| JsUndefined
| JsNull
| JsBool (b : bool)
| JsNumber (n : option Z)   (* [None] is NaN *)
| JsString (s : string)
| JsObject (j : Json).

(** [!!v] *)
Definition truthy (v : JsValue) : bool :=
  match v with
  | JsUndefined | JsNull => false
  | JsBool b => b
  | JsNumber None => false
  | JsNumber (Some n) => negb (n =? 0)
  | JsString s => negb (String.eqb s "")
  | JsObject _ => true
  end.

(** Truthiness of a [string | null] field. *)
Definition truthy_str (o : option string) : bool :=
  match o with
  | Some s => negb (String.eqb s "")
  | None => false
  end.

(** [x || null] on an optional string. *)
Definition or_null (o : option string) : option string :=
  if truthy_str o then o else None.

(** White space stripped by [String.prototype.trim], ASCII part: TAB, LF,
    VT, FF, CR and SPACE. *)
Definition is_space (c : Ascii.ascii) : bool :=
  let n := Ascii.nat_of_ascii c in
  ((9 <=? n)%nat && (n <=? 13)%nat) || (n =? 32)%nat.

Fixpoint trim_start (s : string) : string :=
  match s with
  | String c r => if is_space c then trim_start r else s
  | EmptyString => EmptyString
  end.

Fixpoint trim_end (s : string) : string :=
  match s with
  | String c r =>
      match trim_end r with
      | EmptyString => if is_space c then EmptyString else String c EmptyString
      | r' => String c r'
      end
  | EmptyString => EmptyString
  end.

Definition trim (s : string) : string := trim_end (trim_start s).

(** ** [src/types/workflow.ts] *)

Inductive StepStatus := pending | in_progress | completed | error | skipped.

Inductive WorkflowStatus :=
| WfCreated | WfInProgress | WfPaused | WfCompleted | WfError.

#[global] Instance StepStatus_eq_dec : EqDecision StepStatus.
Proof. solve_decision. Defined.

#[global] Instance WorkflowStatus_eq_dec : EqDecision WorkflowStatus.
Proof. solve_decision. Defined.

(** [interface Workflow].  [stepStatuses] is the JSON object of the row: a
    finite map from the step number [n] (key [String(n)]) to its status; a
    key that is absent reads as [undefined]. *)
Record Workflow := mkWorkflow {
  id : string;
  videoSource : string;
  videoPath : option string;
  videoName : option string;
  videoId : option string;
  status : WorkflowStatus;
  currentStep : Z;
  errorMessage : option string;
  stepStatuses : gmap Z StepStatus;
  step1Output : option Json;
  step2Output : option Json;
  step3Output : option Json;
  step4Output : option Json;
  step5Output : option Json;
  step6Output : option Json;
  step7Output : option Json;
  config : Json;
  enhancePromptId : option string;
  blogPromptId : option string;
  socialPromptId : option string;
  createdAt : string;
  updatedAt : string;
  startedAt : option string;
  completedAt : option string
}.

(** [interface WorkflowLog], the columns the engine writes. *)
Record WorkflowLog := mkLog {
  log_workflowId : string;
  log_step : Z;
  log_status : string;
  log_message : string;
  log_metadata : option Json
}.

Record StepDefinition := mkDef {
  step : Z;
  name : string;
  description : string;
  prerequisites : list Z
}.

Definition STEP_DEFINITIONS : list StepDefinition :=
  [ mkDef 1 "Download Video" "Download video from YouTube or URL" [];
    mkDef 2 "Extract & Transcribe" "Extract audio and transcribe via Whisper" [1];
    mkDef 3 "Enhance Transcript" "AI-enhance transcript and identify key frames" [2];
    mkDef 4 "Capture Screenshots" "Capture screenshots at key timestamps" [3];
    mkDef 5 "Save Transcript" "Export transcript as markdown" [3];
    mkDef 6 "Generate Blog" "AI-generate blog post with screenshots" [3; 4];
    mkDef 7 "Generate Social" "AI-generate social media posts" [3] ].

(** [STEP_DEFINITIONS.find((d) => d.step === step)] *)
Definition getStepDefinition (s : Z) : option StepDefinition :=
  List.find (fun d => d.(step) =? s) STEP_DEFINITIONS.

(** [stepStatuses[String(prereq)] !== 'completed'] *)
Definition not_completed (m : gmap Z StepStatus) (prereq : Z) : bool :=
  negb (bool_decide (m !! prereq = Some completed)).

Record PrereqCheck := mkCheck {
  canExecute : bool;
  missingPrerequisites : list Z
}.

Definition canExecuteStep (workflow : Workflow) (s : Z) : PrereqCheck :=
  match getStepDefinition s with
  | None => mkCheck false []
  | Some definition =>
      let missing :=
        List.filter (not_completed workflow.(stepStatuses))
                    definition.(prerequisites) in
      mkCheck (Nat.eqb (length missing) 0) missing
  end.

(** The step output slots, by step number (the [outputMap] of
    [getStepStatus]); a number outside 1..7 names no slot. *)
Definition stepOutput (w : Workflow) (n : Z) : option Json :=
  match n with
  | 1 => w.(step1Output)
  | 2 => w.(step2Output)
  | 3 => w.(step3Output)
  | 4 => w.(step4Output)
  | 5 => w.(step5Output)
  | 6 => w.(step6Output)
  | 7 => w.(step7Output)
  | _ => None
  end.

(** ** The store, the clock and the monad of the service layer *)

(** One entry per query sent to the database. *)
Inductive Query :=
| QSelectWorkflow (wid : string)
| QInsertWorkflow (wid : string)
| QUpdateWorkflow (wid : string)
| QInsertLog (wid : string).

(** [clock k] is what the [k]-th evaluation of [new Date().toISOString()]
    by the engine returns; [ticks] counts the evaluations so far. *)
Record World := mkWorld {
  workflows : gmap string Workflow;
  workflow_logs : list WorkflowLog;
  queries : list Query;
  clock : nat -> string;
  ticks : nat
}.

Inductive Outcome (A : Type) :=
| Ok (a : A)
| Throw (message : string).
Arguments Ok {A} a.
Arguments Throw {A} message.

(** An [async] function of the service: it runs on the world, returns or
    throws, and leaves a world behind. *)
Definition M (A : Type) : Type := World -> Outcome A * World.

Definition ret {A} (a : A) : M A := fun w => (Ok a, w).

Definition throw {A} (message : string) : M A := fun w => (Throw message, w).

Definition bind {A B} (m : M A) (k : A -> M B) : M B :=
  fun w =>
    match m w with
    | (Ok a, w') => k a w'
    | (Throw e, w') => (Throw e, w')
    end.

(** [try { body } catch (error) { handler(message) }] *)
Definition try_catch {A} (body : M A) (handler : string -> M A) : M A :=
  fun w =>
    match body w with
    | (Ok a, w') => (Ok a, w')
    | (Throw e, w') => handler e w'
    end.

Declare Scope engine_scope.
Delimit Scope engine_scope with engine.
Notation "'let*' x ':=' c 'in' k" := (bind c (fun x => k))
  (at level 10, x name, c at level 100, k at level 200) : engine_scope.
Notation "c ';;' k" := (bind c (fun _ => k))
  (at level 100, k at level 200, right associativity) : engine_scope.
Local Open Scope engine_scope.

(** [new Date().toISOString()] *)
Definition nowISO : M string :=
  fun w => (Ok (w.(clock) w.(ticks)),
            mkWorld w.(workflows) w.(workflow_logs) w.(queries)
                    w.(clock) (S w.(ticks))).

Definition set_workflows (f : gmap string Workflow -> gmap string Workflow)
    (q : Query) (w : World) : World :=
  mkWorld (f w.(workflows)) w.(workflow_logs) (w.(queries) ++ [q])
          w.(clock) w.(ticks).

(** ** Field assignments of [updateWorkflow]

    The [updates] object is the list of its [key: value] entries, in the
    order they are written. *)
Inductive FieldUpdate :=
| UVideoPath (p : string)
| UVideoName (n : string)
| UVideoId (v : string)
| UStatus (s : WorkflowStatus)
| UCurrentStep (n : Z)
| UErrorMessage (m : option string)
| UStepStatuses (m : gmap Z StepStatus)
| UStepOutput (n : Z) (j : Json)
| UConfig (c : Json)
| UStartedAt (t : string)
| UCompletedAt (t : string).

Definition set_stepOutput (n : Z) (j : Json) (w : Workflow) : Workflow :=
  let '(mkWorkflow a b c d e f g h i o1 o2 o3 o4 o5 o6 o7 k l m n' p q r s) := w in
  match n with
  | 1 => mkWorkflow a b c d e f g h i (Some j) o2 o3 o4 o5 o6 o7 k l m n' p q r s
  | 2 => mkWorkflow a b c d e f g h i o1 (Some j) o3 o4 o5 o6 o7 k l m n' p q r s
  | 3 => mkWorkflow a b c d e f g h i o1 o2 (Some j) o4 o5 o6 o7 k l m n' p q r s
  | 4 => mkWorkflow a b c d e f g h i o1 o2 o3 (Some j) o5 o6 o7 k l m n' p q r s
  | 5 => mkWorkflow a b c d e f g h i o1 o2 o3 o4 (Some j) o6 o7 k l m n' p q r s
  | 6 => mkWorkflow a b c d e f g h i o1 o2 o3 o4 o5 (Some j) o7 k l m n' p q r s
  | 7 => mkWorkflow a b c d e f g h i o1 o2 o3 o4 o5 o6 (Some j) k l m n' p q r s
  | _ => w
  end.

(** One [if (updates.key !== undefined) updateData.column = updates.key]. *)
Definition applyField (u : FieldUpdate) (w : Workflow) : Workflow :=
  let '(mkWorkflow a b c d e f g h i o1 o2 o3 o4 o5 o6 o7 k l m n p q r s) := w in
  match u with
  | UVideoPath x => mkWorkflow a b (Some x) d e f g h i o1 o2 o3 o4 o5 o6 o7 k l m n p q r s
  | UVideoName x => mkWorkflow a b c (Some x) e f g h i o1 o2 o3 o4 o5 o6 o7 k l m n p q r s
  | UVideoId x => mkWorkflow a b c d (Some x) f g h i o1 o2 o3 o4 o5 o6 o7 k l m n p q r s
  | UStatus x => mkWorkflow a b c d e x g h i o1 o2 o3 o4 o5 o6 o7 k l m n p q r s
  | UCurrentStep x => mkWorkflow a b c d e f x h i o1 o2 o3 o4 o5 o6 o7 k l m n p q r s
  | UErrorMessage x => mkWorkflow a b c d e f g x i o1 o2 o3 o4 o5 o6 o7 k l m n p q r s
  | UStepStatuses x => mkWorkflow a b c d e f g h x o1 o2 o3 o4 o5 o6 o7 k l m n p q r s
  | UStepOutput x j => set_stepOutput x j w
  | UConfig x => mkWorkflow a b c d e f g h i o1 o2 o3 o4 o5 o6 o7 x l m n p q r s
  | UStartedAt x => mkWorkflow a b c d e f g h i o1 o2 o3 o4 o5 o6 o7 k l m n p q (Some x) s
  | UCompletedAt x => mkWorkflow a b c d e f g h i o1 o2 o3 o4 o5 o6 o7 k l m n p q r (Some x)
  end.

(** [updated_at: new Date().toISOString()] *)
Definition set_updatedAt (t : string) (w : Workflow) : Workflow :=
  let '(mkWorkflow a b c d e f g h i o1 o2 o3 o4 o5 o6 o7 k l m n p q r s) := w in
  mkWorkflow a b c d e f g h i o1 o2 o3 o4 o5 o6 o7 k l m n p t r s.

Definition applyUpdates (t : string) (updates : list FieldUpdate)
    (w : Workflow) : Workflow :=
  foldl (fun acc u => applyField u acc) (set_updatedAt t w) updates.

(** ** The workflow service *)

(** [getWorkflow]: one [select] on the table; [null] when there is no row. *)
Definition getWorkflow (wid : string) : M (option Workflow) :=
  fun w => (Ok (w.(workflows) !! wid),
            set_workflows (fun t => t) (QSelectWorkflow wid) w).

(** [updateWorkflow]: the new [updated_at] is read first, then one [update]
    is sent; it fails when no row has this id ([.single()] on no rows; the
    text after the colon stands for the database's message). *)
Definition updateWorkflow (wid : string) (updates : list FieldUpdate)
    : M Workflow :=
  let* t := nowISO in
  fun w =>
    match w.(workflows) !! wid with
    | None =>
        (Throw "Failed to update workflow: no rows returned",
         set_workflows (fun t => t) (QUpdateWorkflow wid) w)
    | Some row =>
        let row' := applyUpdates t updates row in
        (Ok row', set_workflows (insert wid row') (QUpdateWorkflow wid) w)
    end.

Definition updateStepStatus (wid : string) (s : Z) (st : StepStatus)
    : M Workflow :=
  let* found := getWorkflow wid in
  match found with
  | None => throw "Workflow not found"
  | Some workflow =>
      let newStepStatuses := <[s := st]> workflow.(stepStatuses) in
      updateWorkflow wid
        [ UStepStatuses newStepStatuses;
          UCurrentStep (if decide (st = in_progress) then s
                        else workflow.(currentStep)) ]
  end.

(** [logWorkflowProgress]: one row appended to the log table; no caller
    passes [metadata], which is stored as null. *)
Definition logWorkflowProgress (wid : string) (s : Z) (st : string)
    (message : string) : M unit :=
  fun w =>
    (Ok tt,
     mkWorld w.(workflows)
             (w.(workflow_logs) ++ [mkLog wid s st message None])
             (w.(queries) ++ [QInsertLog wid]) w.(clock) w.(ticks)).

Record StepCheck := mkStepCheck {
  sc_canExecute : bool;
  sc_missingPrerequisites : list Z;
  sc_stepName : string
}.

Definition default_name (s : Z) : string := "Step " +:+ pretty s.

(** [definition?.name || `Step ${step}`] *)
Definition stepNameOf (s : Z) : string :=
  match getStepDefinition s with
  | Some d => if String.eqb d.(name) "" then default_name s else d.(name)
  | None => default_name s
  end.

Definition checkStepPrerequisites (workflow : Workflow) (s : Z) : StepCheck :=
  let result := canExecuteStep workflow s in
  mkStepCheck result.(canExecute) result.(missingPrerequisites) (stepNameOf s).

Record StepInfo := mkStepInfo {
  si_step : Z;
  si_name : string;
  si_status : option StepStatus;
  si_output : option Json;
  si_canExecute : bool;
  si_missingPrerequisites : list Z
}.

Definition getStepStatus (workflow : Workflow) (s : Z) : StepInfo :=
  let prereqCheck := canExecuteStep workflow s in
  mkStepInfo s (stepNameOf s) (workflow.(stepStatuses) !! s)
             (stepOutput workflow s)
             prereqCheck.(canExecute) prereqCheck.(missingPrerequisites).

(** [for (let i = fromStep; i <= 7; i++) newStepStatuses[String(i)] = 'pending'] *)
Definition resetFrom (fromStep : Z) (m : gmap Z StepStatus)
    : gmap Z StepStatus :=
  foldl (fun acc i => <[i := pending]> acc) m (seqZ fromStep (8 - fromStep)).

(** [startWorkflow(id, fromStep?)]; [fromStep = None] is [undefined],
    [Some None] is NaN. *)
Definition startWorkflow (wid : string) (fromStep : option (option Z))
    : M Workflow :=
  let* found := getWorkflow wid in
  match found with
  | None => throw "Workflow not found"
  | Some workflow =>
      let* now := nowISO in
      let updates := [UStatus WfInProgress; UErrorMessage None] in
      let updates :=
        if negb (truthy_str workflow.(startedAt))
        then updates ++ [UStartedAt now] else updates in
      let updates :=
        match fromStep with
        | Some (Some k) =>
            if (1 <=? k) && (k <=? 7)
            then updates ++ [UStepStatuses (resetFrom k workflow.(stepStatuses));
                             UCurrentStep k]
            else updates
        | _ => updates
        end in
      updateWorkflow wid updates
  end.

Definition pauseWorkflow (wid : string) : M Workflow :=
  let* found := getWorkflow wid in
  match found with
  | None => throw "Workflow not found"
  | Some _ => updateWorkflow wid [UStatus WfPaused]
  end.

Definition completeWorkflow (wid : string) : M Workflow :=
  let* now := nowISO in
  updateWorkflow wid [UStatus WfCompleted; UCompletedAt now].

Definition failWorkflow (wid : string) (message : string) : M Workflow :=
  updateWorkflow wid [UStatus WfError; UErrorMessage (Some message)].

Record CreateOptions := mkOptions {
  opt_videoSource : string;
  opt_config : option Json;
  opt_enhancePromptId : option string;
  opt_blogPromptId : option string;
  opt_socialPromptId : option string
}.

(** What the database chooses for a new row: its generated id, and the
    columns whose defaults the specification leaves open. *)
Record RowDefaults := mkDefaults {
  new_id : string;
  new_currentStep : Z;
  new_createdAt : string;
  new_updatedAt : string
}.

Definition allPending : gmap Z StepStatus :=
  list_to_map [(1, pending); (2, pending); (3, pending); (4, pending);
               (5, pending); (6, pending); (7, pending)].

(** Modelled from the spec: the column defaults of the [workflows] table,
    whose schema is not among the sources.  A workflow is created in
    [created] status with all seven steps [pending]; the resolved video
    fields, the error message, the step outputs and the start and completion
    times are null until set. *)
Definition insertedRow (d : RowDefaults) (video_source : string)
    (cfg : Json) (enhance blog social : option string) : Workflow :=
  mkWorkflow d.(new_id) video_source None None None
             WfCreated d.(new_currentStep) None allPending
             None None None None None None None
             cfg enhance blog social
             d.(new_createdAt) d.(new_updatedAt) None None.

(** [createWorkflow]: one [insert]; it fails on a duplicate id. *)
Definition createWorkflow (d : RowDefaults) (options : CreateOptions)
    : M Workflow :=
  let row :=
    insertedRow d (trim options.(opt_videoSource))
      (default "{}" options.(opt_config))
      (or_null options.(opt_enhancePromptId))
      (or_null options.(opt_blogPromptId))
      (or_null options.(opt_socialPromptId)) in
  fun w =>
    match w.(workflows) !! d.(new_id) with
    | Some _ =>
        (Throw "Failed to create workflow: duplicate key",
         set_workflows (fun t => t) (QInsertWorkflow d.(new_id)) w)
    | None =>
        (Ok row,
         set_workflows (insert d.(new_id) row) (QInsertWorkflow d.(new_id)) w)
    end.

(** ** The external collaborators

    Each collaborator is a black box: given the workflow it is handed, it
    fails with a message or returns its output.  The first one also resolves
    the video fields, which [executeStep1] writes to the row just before
    returning. *)
Record Acquired := mkAcquired {
  acq_videoPath : string;
  acq_videoName : string;
  acq_videoId : option string;
  acq_output : Json
}.

Record Services := mkServices {
  acquireVideo : Workflow -> string + Acquired;
  runService : Z -> Workflow -> string + Json
}.

Definition call (r : string + Json) : M Json :=
  match r with
  | inl message => throw message
  | inr output => ret output
  end.

Definition executeStep1 (svc : Services) (workflow : Workflow) : M Json :=
  match svc.(acquireVideo) workflow with
  | inl message => throw message
  | inr a =>
      updateWorkflow workflow.(id)
        ([UVideoPath a.(acq_videoPath); UVideoName a.(acq_videoName)]
         ++ match a.(acq_videoId) with
            | Some v => [UVideoId v]
            | None => []
            end) ;;
      ret a.(acq_output)
  end.

Definition executeStep2 (svc : Services) (workflow : Workflow) : M Json :=
  if negb (truthy_str workflow.(videoPath))
  then throw "No video path available. Run step 1 first."
  else call (svc.(runService) 2 workflow).

Definition executeStep3 (svc : Services) (workflow : Workflow) : M Json :=
  if negb (bool_decide (is_Some workflow.(step2Output)))
  then throw "No transcript available. Run step 2 first."
  else call (svc.(runService) 3 workflow).

Definition executeStep4 (svc : Services) (workflow : Workflow) : M Json :=
  if negb (bool_decide (is_Some workflow.(step3Output)))
     || negb (truthy_str workflow.(videoPath))
     || negb (truthy_str workflow.(videoName))
  then throw "Missing prerequisites. Run steps 1-3 first."
  else call (svc.(runService) 4 workflow).

Definition executeStep5 (svc : Services) (workflow : Workflow) : M Json :=
  if negb (bool_decide (is_Some workflow.(step2Output)))
     || negb (truthy_str workflow.(videoName))
  then throw "Missing prerequisites. Run steps 1-2 first."
  else call (svc.(runService) 5 workflow).

Definition executeStep6 (svc : Services) (workflow : Workflow) : M Json :=
  if negb (bool_decide (is_Some workflow.(step3Output)))
     || negb (bool_decide (is_Some workflow.(step4Output)))
     || negb (truthy_str workflow.(videoName))
  then throw "Missing prerequisites. Run steps 1-4 first."
  else call (svc.(runService) 6 workflow).

Definition executeStep7 (svc : Services) (workflow : Workflow) : M Json :=
  if negb (bool_decide (is_Some workflow.(step3Output)))
     || negb (truthy_str workflow.(videoName))
  then throw "Missing prerequisites. Run steps 1-3 first."
  else call (svc.(runService) 7 workflow).

(** The [switch (step)] of the execute handler; no case matches a number
    outside 1..7 and [stepOutput] stays [undefined]. *)
Definition dispatch (svc : Services) (s : Z) (workflow : Workflow)
    : M (option Json) :=
  match s with
  | 1 => let* o := executeStep1 svc workflow in ret (Some o)
  | 2 => let* o := executeStep2 svc workflow in ret (Some o)
  | 3 => let* o := executeStep3 svc workflow in ret (Some o)
  | 4 => let* o := executeStep4 svc workflow in ret (Some o)
  | 5 => let* o := executeStep5 svc workflow in ret (Some o)
  | 6 => let* o := executeStep6 svc workflow in ret (Some o)
  | 7 => let* o := executeStep7 svc workflow in ret (Some o)
  | _ => ret None
  end.

(** ** The router *)

(** The error payloads of the handlers, under the names of the
    specification's taxonomy. *)
Inductive ApiError :=
| ValidationError                       (* 400 'videoSource is required' *)
| InvalidStep                           (* 400 'Invalid step number (1-7)' *)
| NotFound                              (* 404 'Workflow not found' *)
| PrerequisiteError (missing : list Z)  (* 400 'Cannot execute step ...' *)
| AlreadyCompleted                      (* 400 'Step already completed. ...' *)
| ExecutionError (message : string).    (* 500 { success: false, error } *)

Definition http_status (e : ApiError) : Z :=
  match e with
  | NotFound => 404
  | ExecutionError _ => 500
  | _ => 400
  end.

Inductive Response (A : Type) :=
| Success (a : A)
| Failure (e : ApiError).
Arguments Success {A} a.
Arguments Failure {A} e.

Record CreateBody := mkBody {
  body_videoSource : JsValue;
  body_config : option Json;
  body_enhancePromptId : option string;
  body_blogPromptId : option string;
  body_socialPromptId : option string
}.

Definition is_string (v : JsValue) : bool :=
  match v with JsString _ => true | _ => false end.

Definition string_of (v : JsValue) : string :=
  match v with JsString s => s | _ => "" end.

(** [router.post('/')] *)
Definition postWorkflow (d : RowDefaults) (body : CreateBody)
    : M (Response Workflow) :=
  let videoSource := body.(body_videoSource) in
  if negb (truthy videoSource) || negb (is_string videoSource)
  then ret (Failure ValidationError)
  else
    let* workflow :=
      createWorkflow d
        (mkOptions (trim (string_of videoSource)) body.(body_config)
                   body.(body_enhancePromptId) body.(body_blogPromptId)
                   body.(body_socialPromptId)) in
    ret (Success workflow).

(** [isNaN(step) || step < 1 || step > 7] on the result of [parseInt]. *)
Definition invalidStep (s : option Z) : bool :=
  match s with
  | None => true
  | Some n => (n <? 1) || (n >? 7)
  end.

(** The number [parseInt] returned, once [invalidStep] has excluded NaN. *)
Definition stepNumber (s : option Z) : Z :=
  match s with
  | Some n => n
  | None => 0
  end.

(** [router.get('/:id/steps/:step')] *)
Definition getStepRoute (wid : string) (stepParam : option Z)
    : M (Response StepInfo) :=
  let* found := getWorkflow wid in
  match found with
  | None => ret (Failure NotFound)
  | Some workflow =>
      if invalidStep stepParam then ret (Failure InvalidStep)
      else ret (Success (getStepStatus workflow (stepNumber stepParam)))
  end.

(** [Object.values(workflow.stepStatuses).every((s) => s === 'completed' || s === 'skipped')] *)
Definition allComplete (m : gmap Z StepStatus) : bool :=
  forallb (fun s => bool_decide (s = completed) || bool_decide (s = skipped))
          (map_to_list m).*2.

(** [router.post('/:id/steps/:step/execute')] *)
Definition executeRoute (svc : Services) (wid : string)
    (stepParam : option Z) (force : JsValue)
    : M (Response (Workflow * option Json)) :=
  if invalidStep stepParam then ret (Failure InvalidStep)
  else
    let s := stepNumber stepParam in
    let* found := getWorkflow wid in
    match found with
    | None => ret (Failure NotFound)
    | Some workflow =>
        let prereqCheck := checkStepPrerequisites workflow s in
        if negb prereqCheck.(sc_canExecute) && negb (truthy force)
        then ret (Failure (PrerequisiteError
                             prereqCheck.(sc_missingPrerequisites)))
        else
          let currentStatus := workflow.(stepStatuses) !! s in
          if bool_decide (currentStatus = Some completed)
             && negb (truthy force)
          then ret (Failure AlreadyCompleted)
          else
            let* workflow := updateStepStatus wid s in_progress in
            logWorkflowProgress workflow.(id) s "in_progress"
              ("Starting step " +:+ pretty s) ;;
            try_catch
              (let* stepOutput := dispatch svc s workflow in
               let* workflow :=
                 updateWorkflow wid
                   match stepOutput with
                   | Some o => [UStepOutput s o]
                   | None => []
                   end in
               let* workflow := updateStepStatus wid s completed in
               logWorkflowProgress workflow.(id) s "completed"
                 ("Step " +:+ pretty s +:+ " completed") ;;
               let* workflow :=
                 if allComplete workflow.(stepStatuses)
                 then completeWorkflow wid
                 else ret workflow in
               ret (Success (workflow, stepOutput)))
              (fun message =>
                 updateStepStatus wid s error ;;
                 logWorkflowProgress workflow.(id) s "error" message ;;
                 failWorkflow wid message ;;
                 ret (Failure (ExecutionError message)))
    end.

(** [router.post('/:id/start')] and [router.post('/:id/pause')] *)
Definition startRoute (wid : string) (fromStep : option (option Z))
    : M Workflow :=
  startWorkflow wid fromStep.

Definition pauseRoute (wid : string) : M Workflow := pauseWorkflow wid.

(** ** The prerequisite checker *)

(** The fixed prerequisite graph, as the specification lists it:
    1→{}; 2→{1}; 3→{2}; 4→{3}; 5→{3}; 6→{3,4}; 7→{3}. *)
Definition prerequisite_graph (s : Z) : list Z :=
  match s with
  | 2 => [1]
  | 3 => [2]
  | 4 => [3]
  | 5 => [3]
  | 6 => [3; 4]
  | 7 => [3]
  | _ => []
  end.

(** A prerequisite is satisfied iff its status is [completed]. *)
Definition satisfied (w : Workflow) (p : Z) : Prop :=
  w.(stepStatuses) !! p = Some completed.

#[global] Instance satisfied_dec (w : Workflow) (p : Z) :
  Decision (satisfied w p).
Proof. unfold satisfied. apply _. Defined.

(** ** The public operations as a transition system *)

Inductive Op :=
| OpCreate (d : RowDefaults) (body : CreateBody)
| OpExecuteStep (svc : Services) (wid : string) (stepParam : option Z)
                (force : JsValue)
| OpStart (wid : string) (fromStep : option (option Z))
| OpPause (wid : string)
| OpComplete (wid : string)
| OpFail (wid : string) (message : string).

Definition run_op (op : Op) (σ : World) : World :=
  match op with
  | OpCreate d body => (postWorkflow d body σ).2
  | OpExecuteStep svc wid stepParam force =>
      (executeRoute svc wid stepParam force σ).2
  | OpStart wid fromStep => (startRoute wid fromStep σ).2
  | OpPause wid => (pauseRoute wid σ).2
  | OpComplete wid => (completeWorkflow wid σ).2
  | OpFail wid message => (failWorkflow wid message σ).2
  end.

(** The empty database, with the clock [clk]. *)
Definition initialWorld (clk : nat → string) : World :=
  mkWorld ∅ [] [] clk 0.

(** The worlds reached from the empty database by operations that all
    satisfy [allowed]. *)
Inductive reachable_by (allowed : Op → Prop) : World → Prop :=
| reach_init clk : reachable_by allowed (initialWorld clk)
| reach_step op σ :
    reachable_by allowed σ → allowed op →
    reachable_by allowed (run_op op σ).

Definition reachable : World → Prop := reachable_by (λ _, True).

(** The fields of a row the engine itself maintains: everything but the
    resolved video fields and [updatedAt]. *)
Definition engine_fields (w : Workflow) :=
  (w.(id), w.(videoSource), w.(status), w.(currentStep), w.(errorMessage),
   w.(stepStatuses),
   (w.(step1Output), w.(step2Output), w.(step3Output), w.(step4Output),
    w.(step5Output), w.(step6Output), w.(step7Output)),
   w.(startedAt), w.(completedAt)).

Definition outputs (w : Workflow) :=
  (w.(step1Output), w.(step2Output), w.(step3Output), w.(step4Output),
   w.(step5Output), w.(step6Output), w.(step7Output)).


(** What a collaborator may do to the store: rows keep their engine
    fields, the log is untouched, the clock only advances. *)
Definition same_engine_fields (r r' : Workflow) : Prop :=
  engine_fields r = engine_fields r'.

Definition framed (σ σ' : World) : Prop :=
  workflow_logs σ' = workflow_logs σ
  ∧ clock σ' = clock σ
  ∧ (ticks σ ≤ ticks σ')%nat
  ∧ ∀ k, option_Forall2 same_engine_fields
           (workflows σ !! k) (workflows σ' !! k).

Definition data_unchanged (σ σ' : World) : Prop :=
  workflows σ' = workflows σ ∧ workflow_logs σ' = workflow_logs σ.

(** The rows other than [wid] keep their engine fields. *)
Definition others_framed (wid : string) (σ σ' : World) : Prop :=
  ∀ k, k ≠ wid →
       option_Forall2 same_engine_fields
         (workflows σ !! k) (workflows σ' !! k).

Definition lifecycle_fields (w : Workflow) :=
  (w.(id), w.(videoSource), w.(status), w.(errorMessage), w.(startedAt),
   w.(completedAt)).

(** The two log rows of a run of step [s] of workflow [w] that ends in
    status [st] with message [message]. *)
Definition run_logs (w : Workflow) (s : Z) (st message : string)
    : list WorkflowLog :=
  [ mkLog w.(id) s "in_progress" ("Starting step " +:+ pretty s) None;
    mkLog w.(id) s st message None ].

(** The failure point of a run of step [s]: the row once it is marked
    [in_progress], and the world once that is stored and logged, which is
    where the collaborator is called. *)
Definition in_progress_row (σ : World) (s : Z) (w : Workflow) : Workflow :=
  applyUpdates (clock σ (ticks σ))
    [UStepStatuses (<[s := in_progress]> (stepStatuses w)); UCurrentStep s] w.

Definition in_progress_world (σ : World) (wid : string) (s : Z)
    (w : Workflow) : World :=
  mkWorld (<[wid := in_progress_row σ s w]> (workflows σ))
          (workflow_logs σ
           ++ [mkLog (id (in_progress_row σ s w)) s "in_progress"
                     ("Starting step " +:+ pretty s) None])
          ((((queries σ ++ [QSelectWorkflow wid]) ++ [QSelectWorkflow wid])
            ++ [QUpdateWorkflow wid])
           ++ [QInsertLog (id (in_progress_row σ s w))])
          (clock σ) (S (ticks σ)).

(** When the pre-checks of the execute handler let the request through. *)
Definition admitted (w : Workflow) (s : Z) (force : JsValue) : Prop :=
  truthy force = false →
  (canExecuteStep w s).(canExecute) = true
  ∧ w.(stepStatuses) !! s ≠ Some completed.

(** What each answer of the execute handler says about the world before
    ([σ]) and after ([σ']) the request. *)
Definition execute_post (svc : Services) (wid : string)
    (stepParam : option Z) (force : JsValue) (σ : World)
    (r : Outcome (Response (Workflow * option Json))) (σ' : World) : Prop :=
  let s := stepNumber stepParam in
  match r with
  | Throw _ => False
  | Ok (Failure ValidationError) => False
  | Ok (Failure InvalidStep) => invalidStep stepParam = true ∧ σ' = σ
  | Ok (Failure NotFound) =>
      invalidStep stepParam = false ∧ workflows σ !! wid = None
      ∧ data_unchanged σ σ'
  | Ok (Failure (PrerequisiteError ms)) =>
      invalidStep stepParam = false ∧ truthy force = false
      ∧ data_unchanged σ σ'
      ∧ ∃ w, workflows σ !! wid = Some w
             ∧ canExecuteStep w s = mkCheck false ms
  | Ok (Failure AlreadyCompleted) =>
      invalidStep stepParam = false ∧ truthy force = false
      ∧ data_unchanged σ σ'
      ∧ ∃ w, workflows σ !! wid = Some w
             ∧ w.(stepStatuses) !! s = Some completed
  | Ok (Failure (ExecutionError message)) =>
      invalidStep stepParam = false
      ∧ others_framed wid σ σ'
      ∧ ∃ w w', workflows σ !! wid = Some w
                ∧ workflows σ' !! wid = Some w'
                ∧ admitted w s force
                ∧ w'.(stepStatuses) = <[s := error]> w.(stepStatuses)
                ∧ w'.(status) = WfError
                ∧ w'.(errorMessage) = Some message
                ∧ (∀ n, stepOutput w' n = stepOutput w n)
                ∧ w'.(currentStep) = s
                ∧ w'.(id) = w.(id)
                ∧ w'.(startedAt) = w.(startedAt)
                ∧ w'.(completedAt) = w.(completedAt)
                ∧ workflow_logs σ'
                  = workflow_logs σ ++ run_logs w s "error" message
                ∧ ∃ σ2, dispatch svc s (in_progress_row σ s w)
                                 (in_progress_world σ wid s w)
                        = (Throw message, σ2)
  | Ok (Success (wf, out)) =>
      invalidStep stepParam = false
      ∧ others_framed wid σ σ'
      ∧ ∃ w w' o, out = Some o
                ∧ workflows σ !! wid = Some w
                ∧ workflows σ' !! wid = Some w'
                ∧ wf = w'
                ∧ admitted w s force
                ∧ w'.(stepStatuses) = <[s := completed]> w.(stepStatuses)
                ∧ stepOutput w' s = Some o
                ∧ (∀ n, n ≠ s → stepOutput w' n = stepOutput w n)
                ∧ w'.(currentStep) = s
                ∧ w'.(id) = w.(id)
                ∧ w'.(errorMessage) = w.(errorMessage)
                ∧ w'.(startedAt) = w.(startedAt)
                ∧ (if allComplete w'.(stepStatuses)
                   then w'.(status) = WfCompleted
                        ∧ ∃ k, (ticks σ ≤ k < ticks σ')%nat
                               ∧ w'.(completedAt) = Some (clock σ k)
                   else w'.(status) = w.(status)
                        ∧ w'.(completedAt) = w.(completedAt))
                ∧ workflow_logs σ'
                  = workflow_logs σ
                    ++ run_logs w s "completed"
                         ("Step " +:+ pretty s +:+ " completed")
                ∧ ∃ σ2, dispatch svc s (in_progress_row σ s w)
                                 (in_progress_world σ wid s w)
                        = (Ok (Some o), σ2)
  end.

(** The log rows of [ls] that record an error of step [s]. *)
Definition error_entries (s : Z) (ls : list WorkflowLog) : list WorkflowLog :=
  List.filter (λ l, bool_decide (log_status l = "error" ∧ log_step l = s)) ls.

Definition done_or_skipped (st : StepStatus) : Prop :=
  st = completed ∨ st = skipped.

(** ** Statements of the specification that the code is checked against *)

(** "completedAt is set exactly once": a successful step that leaves every
    step completed or skipped keeps a completion time that was already
    there. *)
Definition completedAt_set_once : Prop :=
  ∀ svc wid sp force σ σ' wf out w,
    workflows σ !! wid = Some w →
    is_Some (completedAt w) →
    executeRoute svc wid sp force σ = (Ok (Success (wf, out)), σ') →
    map_Forall (λ _ st, done_or_skipped st) (stepStatuses wf) →
    completedAt wf = completedAt w.

(** "rejected with InvalidStep before any store read". *)
Definition rejected_before_any_read {A}
    (handler : string → option Z → M (Response A)) : Prop :=
  ∀ wid sp σ,
    invalidStep sp = true →
    (handler wid sp σ).1 = Ok (Failure InvalidStep)
    ∧ queries (handler wid sp σ).2 = queries σ.

Definition step_validation_precedes_reads : Prop :=
  (∀ svc force,
      rejected_before_any_read (λ wid sp, executeRoute svc wid sp force))
  ∧ rejected_before_any_read getStepRoute.

(** "a step's output is non-null only if its status is completed". *)
Definition output_only_if_completed (σ : World) : Prop :=
  ∀ wid w n,
    workflows σ !! wid = Some w →
    is_Some (stepOutput w n) →
    stepStatuses w !! n = Some completed.

(** The operations that neither reset step statuses nor force a step:
    execution without [force], and start without a step to restart from (or
    with one that is not in 1..7). *)
Definition no_reset_no_force (op : Op) : Prop :=
  match op with
  | OpExecuteStep _ _ _ force => truthy force = false
  | OpStart _ (Some k) => invalidStep k = true
  | _ => True
  end.

(** Two worlds whose rows have the same step statuses and step outputs. *)
Definition steps_preserved (σ σ' : World) : Prop :=
  ∀ k, option_Forall2
         (λ r r', stepStatuses r' = stepStatuses r
                  ∧ ∀ n, stepOutput r' n = stepOutput r n)
         (workflows σ !! k) (workflows σ' !! k).

(** Updates that touch neither the step statuses nor a step output. *)
Definition keeps_steps (u : FieldUpdate) : Prop :=
  match u with
  | UStepStatuses _ | UStepOutput _ _ => False
  | _ => True
  end.

(** The invariant of the specification, over every operation. *)
Definition output_only_if_completed_always : Prop :=
  ∀ σ, reachable σ → output_only_if_completed σ.

(** A source is blank when nothing is left after trimming. *)
Definition blank (s : string) : Prop := trim s = "".

(** ** Sample data for the examples *)

Definition sample_clock (n : nat) : string := "t" +:+ pretty n.

Definition sample_defaults : RowDefaults := mkDefaults "wf-1" 0 "t" "t".

Definition sample_body : CreateBody :=
  mkBody (JsString "https://example.com/a.mp4") None None None None.

Definition working_services : Services :=
  mkServices (λ _, inr (mkAcquired "/data/videos/a.mp4" "a" None "{}"))
             (λ _ _, inr "{}").

Definition failing_services : Services :=
  mkServices (λ _, inl "Failed to download video (404)")
             (λ _ _, inl "service unavailable").

(** One workflow, just created. *)
Definition created_world : World :=
  run_op (OpCreate sample_defaults sample_body) (initialWorld sample_clock).

Definition execute_steps (svc : Services) (force : JsValue)
    (steps : list Z) (σ : World) : World :=
  foldl (λ acc s, run_op (OpExecuteStep svc "wf-1" (Some s) force) acc)
        σ steps.

(** The same workflow after steps 1 to 7 have run in order. *)
Definition finished_world : World :=
  execute_steps working_services JsUndefined [1; 2; 3; 4; 5; 6; 7]
                created_world.

(** The workflow after its first step has failed. *)
Definition failed_world : World :=
  execute_steps failing_services JsUndefined [1] created_world.

(** The workflow after its first step has run, and after a restart from
    step 1 that follows. *)
Definition step1_done_world : World :=
  execute_steps working_services JsUndefined [1] created_world.

Definition restarted_world : World :=
  run_op (OpStart "wf-1" (Some (Some 1))) step1_done_world.

(** ** The rest of the service and of the router *)

(** [deleteWorkflow]: one [delete] on the table; deleting no row is not an
    error.  The query trace, which counts the selects, inserts and updates,
    does not record it.
    Modelled from the spec: the log rows of the workflow go with it (the
    cascade is declared in the schema, which is not among the sources). *)
Definition deleteWorkflow (wid : string) : M unit :=
  fun w =>
    (Ok tt,
     mkWorld (delete wid w.(workflows))
             (List.filter (λ l, negb (String.eqb l.(log_workflowId) wid))
                          w.(workflow_logs))
             w.(queries) w.(clock) w.(ticks)).

(** [router.get('/:id')] *)
Definition getRoute (wid : string) : M (Response Workflow) :=
  let* found := getWorkflow wid in
  match found with
  | None => ret (Failure NotFound)
  | Some workflow => ret (Success workflow)
  end.

(** [router.delete('/:id')]: always 204. *)
Definition deleteRoute (wid : string) : M (Response unit) :=
  deleteWorkflow wid ;; ret (Success tt).

Record StepSummary := mkStepSummary {
  ss_step : Z;
  ss_name : string;
  ss_description : string;
  ss_status : option StepStatus;
  ss_canExecute : bool;
  ss_missingPrerequisites : list Z
}.

(** [getAllStepStatuses]: [STEP_DEFINITIONS.map((def) => ...)] *)
Definition getAllStepStatuses (workflow : Workflow) : list StepSummary :=
  List.map
    (λ def,
       let prereqCheck := canExecuteStep workflow def.(step) in
       mkStepSummary def.(step) def.(name) def.(description)
                     (workflow.(stepStatuses) !! def.(step))
                     prereqCheck.(canExecute)
                     prereqCheck.(missingPrerequisites))
    STEP_DEFINITIONS.

(** [router.get('/:id/steps')] *)
Definition stepsRoute (wid : string) : M (Response (list StepSummary)) :=
  let* found := getWorkflow wid in
  match found with
  | None => ret (Failure NotFound)
  | Some workflow => ret (Success (getAllStepStatuses workflow))
  end.

(** ** Well-formed stores and the changes an operation makes to a row *)




(** The workflow an operation addresses. *)
Definition target (op : Op) : string :=
  match op with
  | OpCreate d _ => new_id d
  | OpExecuteStep _ wid _ _ => wid
  | OpStart wid _ => wid
  | OpPause wid => wid
  | OpComplete wid => wid
  | OpFail wid _ => wid
  end.

(** The new [stepStatuses] of [startWorkflow]. *)
Definition started_statuses (fromStep : option (option Z))
    (m : gmap Z StepStatus) : gmap Z StepStatus :=
  match fromStep with
  | Some (Some k) => if (1 <=? k) && (k <=? 7) then resetFrom k m else m
  | _ => m
  end.

(** How operation [op] may change a row from [w] to [w']: not at all in
    its engine fields, or as one of the six transitions of the engine. *)
Inductive RowChange : Op → Workflow → Workflow → Prop :=
| rc_kept op w w' :
    same_engine_fields w w' → RowChange op w w'
| rc_step_completed svc wid sp force w w' :
    invalidStep sp = false →
    admitted w (stepNumber sp) force →
    id w' = id w →
    stepStatuses w' = <[stepNumber sp := completed]> (stepStatuses w) →
    is_Some (stepOutput w' (stepNumber sp)) →
    (∀ n, n ≠ stepNumber sp → stepOutput w' n = stepOutput w n) →
    errorMessage w' = errorMessage w →
    (if allComplete (stepStatuses w') then status w' = WfCompleted
     else status w' = status w ∧ completedAt w' = completedAt w) →
    RowChange (OpExecuteStep svc wid sp force) w w'
| rc_step_failed svc wid sp force w w' message :
    invalidStep sp = false →
    admitted w (stepNumber sp) force →
    id w' = id w →
    stepStatuses w' = <[stepNumber sp := error]> (stepStatuses w) →
    (∀ n, stepOutput w' n = stepOutput w n) →
    status w' = WfError →
    errorMessage w' = Some message →
    RowChange (OpExecuteStep svc wid sp force) w w'
| rc_started wid fromStep w w' :
    id w' = id w →
    stepStatuses w' = started_statuses fromStep (stepStatuses w) →
    (∀ n, stepOutput w' n = stepOutput w n) →
    status w' = WfInProgress →
    errorMessage w' = None →
    completedAt w' = completedAt w →
    RowChange (OpStart wid fromStep) w w'
| rc_paused wid w w' :
    id w' = id w →
    stepStatuses w' = stepStatuses w →
    (∀ n, stepOutput w' n = stepOutput w n) →
    status w' = WfPaused →
    errorMessage w' = errorMessage w →
    RowChange (OpPause wid) w w'
| rc_completed wid w w' :
    id w' = id w →
    stepStatuses w' = stepStatuses w →
    (∀ n, stepOutput w' n = stepOutput w n) →
    status w' = WfCompleted →
    errorMessage w' = errorMessage w →
    RowChange (OpComplete wid) w w'
| rc_failed wid message w w' :
    id w' = id w →
    stepStatuses w' = stepStatuses w →
    (∀ n, stepOutput w' n = stepOutput w n) →
    status w' = WfError →
    errorMessage w' = Some message →
    RowChange (OpFail wid message) w w'.

(** The operations a client can send to the router: create, execute, start
    and pause ([completeWorkflow] and [failWorkflow] have no route). *)
Definition router_op (op : Op) : Prop :=
  match op with
  | OpComplete _ | OpFail _ _ => False
  | _ => True
  end.

(** The message [executeStepN] throws before it calls its service, when the
    workflow lacks what step [s] reads. *)
Definition missing_input (s : Z) (w : Workflow) : option string :=
  match s with
  | 2 =>
      if negb (truthy_str w.(videoPath))
      then Some "No video path available. Run step 1 first." else None
  | 3 =>
      if negb (bool_decide (is_Some w.(step2Output)))
      then Some "No transcript available. Run step 2 first." else None
  | 4 =>
      if negb (bool_decide (is_Some w.(step3Output)))
         || negb (truthy_str w.(videoPath))
         || negb (truthy_str w.(videoName))
      then Some "Missing prerequisites. Run steps 1-3 first." else None
  | 5 =>
      if negb (bool_decide (is_Some w.(step2Output)))
         || negb (truthy_str w.(videoName))
      then Some "Missing prerequisites. Run steps 1-2 first." else None
  | 6 =>
      if negb (bool_decide (is_Some w.(step3Output)))
         || negb (bool_decide (is_Some w.(step4Output)))
         || negb (truthy_str w.(videoName))
      then Some "Missing prerequisites. Run steps 1-4 first." else None
  | 7 =>
      if negb (bool_decide (is_Some w.(step3Output)))
         || negb (truthy_str w.(videoName))
      then Some "Missing prerequisites. Run steps 1-3 first." else None
  | _ => None
  end.

(** Updates that touch none of the resolved video fields. *)
Definition keeps_video (u : FieldUpdate) : Prop :=
  match u with
  | UVideoPath _ | UVideoName _ | UVideoId _ => False
  | _ => True
  end.


(** What running [op] from [σ] to [σ'] does to the row under key [k]: a
    row that was there is still there, changed as [RowChange] allows and, if
    it is not the one addressed, with its engine fields kept; a row appears
    only under the id that create inserts. *)
Definition row_follows (op : Op) (σ σ' : World) (k : string) : Prop :=
  match workflows σ !! k with
  | Some w =>
      ∃ w', workflows σ' !! k = Some w'
            ∧ RowChange op w w'
            ∧ (k ≠ target op → same_engine_fields w w')
  | None =>
      workflows σ' !! k = None
      ∨ ∃ d body src cfg e b so,
          op = OpCreate d body ∧ k = new_id d
          ∧ workflows σ' !! k = Some (insertedRow d src cfg e b so)
  end.

(** A freshly inserted row, and the same row once step 1 is completed. *)
Definition sample_row : Workflow :=
  insertedRow sample_defaults "https://example.com/a.mp4" "{}" None None None.

Definition sample_row_step1 : Workflow :=
  applyUpdates "t1" [UStepStatuses (<[1 := completed]> allPending)] sample_row.

(** * Properties *)

Lemma getStepDefinition_in_range (s : Z) :
  1 ≤ s ≤ 7 →
  ∃ d, getStepDefinition s = Some d ∧ d.(step) = s
       ∧ d.(prerequisites) = prerequisite_graph s.
Proof.
  intros Hs.
  assert (s = 1 ∨ s = 2 ∨ s = 3 ∨ s = 4 ∨ s = 5 ∨ s = 6 ∨ s = 7) as Hc by lia.
  destruct Hc as [->|[->|[->|[->|[->|[->| ->]]]]]]; eexists; (split; [reflexivity|done]).
Qed.

Lemma getStepDefinition_out_of_range (s : Z) :
  ¬ (1 ≤ s ≤ 7) → getStepDefinition s = None.
Proof.
  intros Hs. unfold getStepDefinition, STEP_DEFINITIONS.
  cbn [List.find step].
  repeat match goal with
         | |- context [?a =? s] =>
             replace (a =? s) with false by (symmetry; apply Z.eqb_neq; lia)
         end.
  reflexivity.
Qed.

Lemma not_completed_spec (w : Workflow) (p : Z) :
  not_completed w.(stepStatuses) p = true ↔ ¬ satisfied w p.
Proof.
  unfold not_completed, satisfied.
  rewrite negb_true_iff, bool_decide_eq_false. reflexivity.
Qed.

Lemma filter_nil_Forall {A} (f : A → bool) (l : list A) :
  List.filter f l = [] ↔ Forall (λ x, f x = false) l.
Proof.
  induction l as [|x l IH]; simpl.
  - split; [constructor | reflexivity].
  - destruct (f x) eqn:Hx.
    + split; [discriminate | intros H; inversion H; congruence].
    + rewrite IH. split; [by constructor | intros H; by inversion H].
Qed.

Lemma prerequisite_graph_sorted (s : Z) :
  StronglySorted Z.lt (prerequisite_graph s).
Proof.
  assert (∀ l : list Z, l = [] ∨ (∃ a, l = [a]) ∨ l = [3; 4] →
                        StronglySorted Z.lt l) as Hs.
  { intros l [->|[[a ->]| ->]]; repeat constructor; lia. }
  apply Hs. unfold prerequisite_graph.
  repeat (match goal with |- context [match ?x with _ => _ end] => destruct x end);
    eauto.
Qed.

Lemma filter_sorted (f : Z → bool) (l : list Z) :
  StronglySorted Z.lt l → StronglySorted Z.lt (List.filter f l).
Proof.
  induction 1 as [|a l Hl IH Ha]; simpl; [constructor|].
  destruct (f a); [|assumption].
  constructor; [assumption|].
  rewrite Forall_forall in Ha |- *.
  intros x Hx. apply Ha. apply list_elem_of_In.
  apply list_elem_of_In in Hx. apply filter_In in Hx. tauto.
Qed.

(** C1. [canExecuteStep(w, s)], for a step [s] of the table, is executable
    iff every prerequisite of [s] in the fixed graph has status
    [completed] in [w.stepStatuses] ([skipped] does not count), and its
    missing list is the unsatisfied prerequisites in the order of the
    graph, which is ascending; for a step number outside 1..7 it is
    [{ canExecute: false, missingPrerequisites: [] }]. *)
Theorem canExecuteStep_spec (w : Workflow) (s : Z) :
  let r := canExecuteStep w s in
  if bool_decide (1 ≤ s ≤ 7) then
    (r.(canExecute) = true ↔ Forall (satisfied w) (prerequisite_graph s))
    ∧ r.(missingPrerequisites)
      = List.filter (λ p, bool_decide (¬ satisfied w p)) (prerequisite_graph s)
    ∧ StronglySorted Z.lt r.(missingPrerequisites)
    ∧ (∀ p, w.(stepStatuses) !! p = Some skipped →
            In p (prerequisite_graph s) → In p r.(missingPrerequisites))
  else r = mkCheck false [].
Proof.
  intros r. subst r. case_bool_decide as Hs.
  - destruct (getStepDefinition_in_range s Hs) as (d & Hd & _ & Hp).
    unfold canExecuteStep. rewrite Hd, Hp. simpl.
    split; [|split; [|split]].
    + rewrite Nat.eqb_eq, length_zero_iff_nil, filter_nil_Forall.
      rewrite !Forall_forall. split; intros H p Hin; specialize (H p Hin).
      * destruct (not_completed _ p) eqn:E; [discriminate|].
        apply not_true_iff_false in E. rewrite not_completed_spec in E.
        unfold satisfied in *. destruct (decide (stepStatuses w !! p = Some completed)); tauto.
      * apply not_true_iff_false. rewrite not_completed_spec. tauto.
    + apply filter_ext. intros p. unfold not_completed, satisfied.
      destruct (decide (stepStatuses w !! p = Some completed)) as [e|n].
      * rewrite (bool_decide_eq_true_2 _ e).
        symmetry. apply bool_decide_eq_false. tauto.
      * rewrite (bool_decide_eq_false_2 _ n).
        symmetry. apply bool_decide_eq_true. tauto.
    + apply filter_sorted, prerequisite_graph_sorted.
    + intros p Hsk Hin. apply filter_In. split; [assumption|].
      apply not_completed_spec. unfold satisfied. rewrite Hsk. discriminate.
  - unfold canExecuteStep. by rewrite getStepDefinition_out_of_range.
Qed.

(** ** Running the service functions *)

Lemma getWorkflow_run (wid : string) (σ : World) :
  getWorkflow wid σ
  = (Ok (workflows σ !! wid),
     mkWorld (workflows σ) (workflow_logs σ)
             (queries σ ++ [QSelectWorkflow wid]) (clock σ) (ticks σ)).
Proof. reflexivity. Qed.

Lemma updateWorkflow_run (wid : string) (us : list FieldUpdate)
    (σ : World) (row : Workflow) :
  workflows σ !! wid = Some row →
  updateWorkflow wid us σ
  = (Ok (applyUpdates (clock σ (ticks σ)) us row),
     mkWorld (<[wid := applyUpdates (clock σ (ticks σ)) us row]> (workflows σ))
             (workflow_logs σ) (queries σ ++ [QUpdateWorkflow wid])
             (clock σ) (S (ticks σ))).
Proof.
  intros H. unfold updateWorkflow, bind, nowISO, set_workflows. simpl.
  rewrite H. reflexivity.
Qed.

Lemma updateWorkflow_missing (wid : string) (us : list FieldUpdate)
    (σ : World) :
  workflows σ !! wid = None →
  ∃ e σ', updateWorkflow wid us σ = (Throw e, σ')
          ∧ workflows σ' = workflows σ
          ∧ workflow_logs σ' = workflow_logs σ
          ∧ clock σ' = clock σ ∧ ticks σ' = S (ticks σ).
Proof.
  intros H. unfold updateWorkflow, bind, nowISO, set_workflows. simpl.
  rewrite H. eauto 10.
Qed.

Lemma updateStepStatus_run (wid : string) (s : Z) (st : StepStatus)
    (σ : World) (row : Workflow) :
  workflows σ !! wid = Some row →
  let row' :=
    applyUpdates (clock σ (ticks σ))
      [ UStepStatuses (<[s := st]> (stepStatuses row));
        UCurrentStep (if decide (st = in_progress) then s
                      else currentStep row) ] row in
  updateStepStatus wid s st σ
  = (Ok row',
     mkWorld (<[wid := row']> (workflows σ)) (workflow_logs σ)
             ((queries σ ++ [QSelectWorkflow wid]) ++ [QUpdateWorkflow wid])
             (clock σ) (S (ticks σ))).
Proof.
  intros H row'. unfold updateStepStatus, bind. rewrite getWorkflow_run, H.
  rewrite (updateWorkflow_run _ _ _ row) by exact H. reflexivity.
Qed.

Lemma logWorkflowProgress_run (wid : string) (s : Z) (st message : string)
    (σ : World) :
  logWorkflowProgress wid s st message σ
  = (Ok tt,
     mkWorld (workflows σ)
             (workflow_logs σ ++ [mkLog wid s st message None])
             (queries σ ++ [QInsertLog wid]) (clock σ) (ticks σ)).
Proof. reflexivity. Qed.

(** Projections of an updated row. *)
Lemma engine_fields_video (t : string) (us : list FieldUpdate) (w : Workflow) :
  Forall (λ u, match u with
               | UVideoPath _ | UVideoName _ | UVideoId _ => True
               | _ => False
               end) us →
  engine_fields (applyUpdates t us w) = engine_fields w.
Proof.
  unfold applyUpdates. intros H.
  transitivity (engine_fields (set_updatedAt t w)); [|by destruct w].
  generalize (set_updatedAt t w). clear w.
  induction H as [|u us Hu _ IH]; intros w; [reflexivity|].
  simpl. rewrite IH. destruct u; try done; by destruct w.
Qed.

Lemma framed_refl (σ : World) : framed σ σ.
Proof.
  repeat split; try done. intros k.
  destruct (workflows σ !! k); by constructor.
Qed.

Lemma call_run (r : string + Json) (σ : World) :
  call r σ = match r with
             | inl e => (Throw e, σ)
             | inr o => (Ok o, σ)
             end.
Proof. by destruct r. Qed.

Lemma executeStep1_spec (svc : Services) (w : Workflow) (σ : World) :
  match executeStep1 svc w σ with
  | (Ok _, σ') => framed σ σ'
  | (Throw _, σ') =>
      workflows σ' = workflows σ ∧ workflow_logs σ' = workflow_logs σ
      ∧ clock σ' = clock σ ∧ (ticks σ ≤ ticks σ')%nat
  end.
Proof.
  unfold executeStep1. destruct (acquireVideo svc w) as [e|a].
  - simpl. repeat split; done || lia.
  - unfold bind.
    destruct (workflows σ !! id w) as [row|] eqn:Hrow.
    + rewrite (updateWorkflow_run _ _ _ row) by exact Hrow.
      unfold framed. simpl.
      split; [done|]. split; [done|]. split; [lia|].
      intros k. destruct (decide (k = id w)) as [->|Hne].
      * rewrite lookup_insert_eq, Hrow. constructor.
        unfold same_engine_fields. symmetry. apply engine_fields_video.
        destruct (acq_videoId a); repeat constructor.
      * rewrite lookup_insert_ne by done.
        destruct (workflows σ !! k); by constructor.
    + destruct (updateWorkflow_missing (id w)
                  ([UVideoPath (acq_videoPath a); UVideoName (acq_videoName a)]
                   ++ match acq_videoId a with
                      | Some v => [UVideoId v]
                      | None => []
                      end) σ Hrow) as (e & σ' & -> & ? & ? & ? & ?).
      repeat split; try done. lia.
Qed.

Lemma dispatch_spec (svc : Services) (s : Z) (w : Workflow) (σ : World) :
  1 ≤ s ≤ 7 →
  match dispatch svc s w σ with
  | (Ok None, _) => False
  | (Ok (Some _), σ') => framed σ σ'
  | (Throw _, σ') =>
      workflows σ' = workflows σ ∧ workflow_logs σ' = workflow_logs σ
      ∧ clock σ' = clock σ ∧ (ticks σ ≤ ticks σ')%nat
  end.
Proof.
  intros Hs.
  assert (s = 1 ∨ s = 2 ∨ s = 3 ∨ s = 4 ∨ s = 5 ∨ s = 6 ∨ s = 7) as Hc by lia.
  destruct Hc as [->|[->|[->|[->|[->|[->| ->]]]]]]; unfold dispatch, bind.
  - pose proof (executeStep1_spec svc w σ) as H.
    destruct (executeStep1 svc w σ) as [[o|e] σ']; exact H.
  - unfold executeStep2.
    destruct (negb _); [simpl; by repeat split|].
    rewrite call_run. destruct (runService svc 2 w); simpl;
      [by repeat split | apply framed_refl].
  - unfold executeStep3.
    destruct (negb _); [simpl; by repeat split|].
    rewrite call_run. destruct (runService svc 3 w); simpl;
      [by repeat split | apply framed_refl].
  - unfold executeStep4.
    destruct (_ || _); [simpl; by repeat split|].
    rewrite call_run. destruct (runService svc 4 w); simpl;
      [by repeat split | apply framed_refl].
  - unfold executeStep5.
    destruct (_ || _); [simpl; by repeat split|].
    rewrite call_run. destruct (runService svc 5 w); simpl;
      [by repeat split | apply framed_refl].
  - unfold executeStep6.
    destruct (_ || _); [simpl; by repeat split|].
    rewrite call_run. destruct (runService svc 6 w); simpl;
      [by repeat split | apply framed_refl].
  - unfold executeStep7.
    destruct (_ || _); [simpl; by repeat split|].
    rewrite call_run. destruct (runService svc 7 w); simpl;
      [by repeat split | apply framed_refl].
Qed.

(** ** The execute handler, answer by answer *)

Lemma invalidStep_false (sp : option Z) :
  invalidStep sp = false → ∃ s, sp = Some s ∧ 1 ≤ s ≤ 7.
Proof.
  destruct sp as [s|]; [|discriminate]. simpl.
  intros H. apply orb_false_iff in H as [H1 H2]. exists s. split; [done|]. lia.
Qed.

(** Field by field: what each update of the engine does to a row. *)
Lemma statusUpdate_fields (t : string) (s : Z) (st : StepStatus) (c : Z)
    (w : Workflow) :
  let w' := applyUpdates t [UStepStatuses (<[s := st]> (stepStatuses w));
                            UCurrentStep c] w in
  stepStatuses w' = <[s := st]> (stepStatuses w)
  ∧ currentStep w' = c
  ∧ lifecycle_fields w' = lifecycle_fields w
  ∧ ∀ n, stepOutput w' n = stepOutput w n.
Proof. by destruct w. Qed.

Lemma outputUpdate_fields (t : string) (s : Z) (o : Json) (w : Workflow) :
  1 ≤ s ≤ 7 →
  let w' := applyUpdates t [UStepOutput s o] w in
  stepStatuses w' = stepStatuses w
  ∧ currentStep w' = currentStep w
  ∧ lifecycle_fields w' = lifecycle_fields w
  ∧ stepOutput w' s = Some o
  ∧ ∀ n, n ≠ s → stepOutput w' n = stepOutput w n.
Proof.
  intros Hs.
  assert (s = 1 ∨ s = 2 ∨ s = 3 ∨ s = 4 ∨ s = 5 ∨ s = 6 ∨ s = 7) as Hc by lia.
  destruct w.
  destruct Hc as [->|[->|[->|[->|[->|[->| ->]]]]]];
    (repeat split; try reflexivity; intros n Hn; unfold stepOutput; simpl;
     destruct n as [|p|p]; try reflexivity;
     repeat (destruct p as [p|p|]; try reflexivity); congruence).
Qed.

Lemma completeUpdate_fields (t t' : string) (w : Workflow) :
  let w' := applyUpdates t' [UStatus WfCompleted; UCompletedAt t] w in
  stepStatuses w' = stepStatuses w
  ∧ currentStep w' = currentStep w
  ∧ (∀ n, stepOutput w' n = stepOutput w n)
  ∧ id w' = id w ∧ errorMessage w' = errorMessage w
  ∧ startedAt w' = startedAt w
  ∧ status w' = WfCompleted ∧ completedAt w' = Some t.
Proof. by destruct w. Qed.

Lemma failUpdate_fields (t message : string) (w : Workflow) :
  let w' := applyUpdates t [UStatus WfError; UErrorMessage (Some message)] w in
  stepStatuses w' = stepStatuses w
  ∧ currentStep w' = currentStep w
  ∧ (∀ n, stepOutput w' n = stepOutput w n)
  ∧ id w' = id w ∧ startedAt w' = startedAt w
  ∧ completedAt w' = completedAt w
  ∧ status w' = WfError ∧ errorMessage w' = Some message.
Proof. by destruct w. Qed.

Lemma lifecycle_fields_inv (w' w : Workflow) :
  lifecycle_fields w' = lifecycle_fields w →
  id w' = id w ∧ videoSource w' = videoSource w ∧ status w' = status w
  ∧ errorMessage w' = errorMessage w
  ∧ startedAt w' = startedAt w ∧ completedAt w' = completedAt w.
Proof. unfold lifecycle_fields. intros [= -> -> -> -> -> ->]. done. Qed.

Lemma engine_fields_inv (w w' : Workflow) :
  same_engine_fields w w' →
  stepStatuses w' = stepStatuses w
  ∧ currentStep w' = currentStep w
  ∧ lifecycle_fields w' = lifecycle_fields w
  ∧ ∀ n, stepOutput w' n = stepOutput w n.
Proof.
  unfold same_engine_fields, engine_fields, lifecycle_fields.
  destruct w, w'. simpl. intros [=]. subst. done.
Qed.

Lemma option_Forall2_Some {A} (R : A → A → Prop) (x : A) (o : option A) :
  option_Forall2 R (Some x) o → ∃ y, o = Some y ∧ R x y.
Proof. inversion 1; eauto. Qed.

Lemma completeWorkflow_run (wid : string) (σ : World) (row : Workflow) :
  workflows σ !! wid = Some row →
  let row' :=
    applyUpdates (clock σ (S (ticks σ)))
      [UStatus WfCompleted; UCompletedAt (clock σ (ticks σ))] row in
  completeWorkflow wid σ
  = (Ok row',
     mkWorld (<[wid := row']> (workflows σ)) (workflow_logs σ)
             (queries σ ++ [QUpdateWorkflow wid]) (clock σ)
             (S (S (ticks σ)))).
Proof.
  intros H row'. unfold completeWorkflow, bind at 1. unfold nowISO.
  rewrite (updateWorkflow_run _ _ _ row) by exact H. reflexivity.
Qed.

Lemma executeRoute_post (svc : Services) (wid : string) (sp : option Z)
    (force : JsValue) (σ : World) r σ' :
  executeRoute svc wid sp force σ = (r, σ') →
  execute_post svc wid sp force σ r σ'.
Proof.
  unfold executeRoute.
  destruct (invalidStep sp) eqn:Hinv.
  { intros [= <- <-]. by simpl. }
  destruct (invalidStep_false sp Hinv) as (s & -> & Hs).
  cbn [stepNumber].
  unfold bind at 1. rewrite getWorkflow_run.
  destruct (workflows σ !! wid) as [w|] eqn:Hw.
  2:{ intros [= <- <-]. unfold execute_post, data_unchanged. simpl. auto. }
  unfold checkStepPrerequisites. cbn [sc_canExecute sc_missingPrerequisites].
  destruct (negb (canExecute (canExecuteStep w s)) && negb (truthy force)) eqn:Hpre.
  { intros [= <- <-].
    apply andb_true_iff in Hpre as [Hc Hf]. apply negb_true_iff in Hc, Hf.
    unfold execute_post, data_unchanged. cbn [stepNumber workflows workflow_logs].
    repeat split; auto. exists w. split; [done|].
    unfold canExecuteStep in *. destruct (getStepDefinition s); [|done].
    cbn [canExecute missingPrerequisites] in *. by rewrite Hc. }
  destruct (bool_decide (stepStatuses w !! s = Some completed) && negb (truthy force)) eqn:Hdone.
  { intros [= <- <-].
    apply andb_true_iff in Hdone as [Hc Hf]. apply negb_true_iff in Hf.
    apply bool_decide_eq_true in Hc.
    unfold execute_post, data_unchanged. cbn [stepNumber workflows workflow_logs].
    repeat split; eauto. }
  assert (admitted w s force) as Hadm.
  { intros Hf. rewrite Hf in Hpre, Hdone. rewrite andb_true_r in Hpre, Hdone.
    apply negb_false_iff in Hpre. apply bool_decide_eq_false in Hdone. done. }
  clear Hpre Hdone.
  unfold bind at 1.
  rewrite (updateStepStatus_run wid s in_progress _ w) by exact Hw.
  cbn [workflows workflow_logs queries clock ticks].
  destruct (decide (in_progress = in_progress)) as [_|]; [|done].
  destruct (statusUpdate_fields (clock σ (ticks σ)) s in_progress s w)
    as (Hst1 & Hcs1 & Hlf1 & Hso1).
  apply lifecycle_fields_inv in Hlf1 as (Hid1 & Hvs1 & Hstat1 & Herr1 & Hsta1 & Hcom1).
  set (w1 := applyUpdates _ _ w) in *.
  unfold bind at 1. rewrite logWorkflowProgress_run.
  cbn [workflows workflow_logs queries clock ticks].
  unfold try_catch. unfold bind at 1.
  match goal with |- context [dispatch svc s w1 ?σ2] =>
    pose proof (dispatch_spec svc s w1 σ2 Hs) as Hd;
    destruct (dispatch svc s w1 σ2) as [[[o|]|e] σ3] eqn:Hdisp end;
    [|done|].
  - (* the collaborator returned [o] *)
    destruct Hd as (Hlog3 & Hclk3 & Htk3 & Hrows3).
    cbn [workflows workflow_logs queries clock ticks] in *.
    pose proof (Hrows3 wid) as Hrow. rewrite lookup_insert_eq in Hrow.
    apply option_Forall2_Some in Hrow as (w1' & Heq2 & Hsame).
    apply engine_fields_inv in Hsame as (Hst1' & Hcs1' & Hlf1' & Hso1').
    apply lifecycle_fields_inv in Hlf1' as (Hid1' & Hvs1' & Hstat1' & Herr1' & Hsta1' & Hcom1').
    unfold bind at 1.
    rewrite (updateWorkflow_run wid _ σ3 w1') by exact Heq2.
    destruct (outputUpdate_fields (clock σ3 (ticks σ3)) s o w1' Hs)
      as (Hst2 & Hcs2 & Hlf2 & Hso2 & Hso2').
    apply lifecycle_fields_inv in Hlf2 as (Hid2 & Hvs2 & Hstat2 & Herr2 & Hsta2 & Hcom2).
    set (w2 := applyUpdates _ _ w1') in *.
    unfold bind at 1.
    rewrite (updateStepStatus_run wid s completed _ w2)
      by (cbn [workflows]; apply lookup_insert_eq).
    cbn [workflows workflow_logs queries clock ticks].
    destruct (decide (completed = in_progress)) as [|_]; [done|].
    destruct (statusUpdate_fields (clock σ3 (S (ticks σ3))) s completed (currentStep w2) w2)
      as (Hst3 & Hcs3 & Hlf3 & Hso3).
    apply lifecycle_fields_inv in Hlf3 as (Hid3 & Hvs3 & Hstat3 & Herr3 & Hsta3 & Hcom3).
    set (w3 := applyUpdates _ _ w2) in *.
    unfold bind at 1. rewrite logWorkflowProgress_run.
    cbn [workflows workflow_logs queries clock ticks].
    assert (stepStatuses w3 = <[s := completed]> (stepStatuses w)) as Hst.
    { rewrite Hst3, Hst2, Hst1', Hst1. apply insert_insert_eq. }
    assert (others_framed wid σ
              (mkWorld (<[wid:=w3]> (<[wid:=w2]> (workflows σ3))) [] [] (clock σ) 0))
      as Hothers.
    { intros k Hk. cbn [workflows]. rewrite !lookup_insert_ne by done.
      specialize (Hrows3 k). by rewrite lookup_insert_ne in Hrows3. }
    destruct (allComplete (stepStatuses w3)) eqn:Hall.
    + unfold bind at 1.
      rewrite (completeWorkflow_run wid _ w3)
        by (cbn [workflows]; apply lookup_insert_eq).
      cbn [workflows workflow_logs queries clock ticks].
      match goal with |- context [applyUpdates ?t' [UStatus WfCompleted; UCompletedAt ?t] w3] =>
        destruct (completeUpdate_fields t t' w3)
          as (Hst4 & Hcs4 & Hso4 & Hid4 & Herr4 & Hsta4 & Hstat4 & Hcom4);
        set (w4 := applyUpdates t' _ w3) in * end.
      intros [= <- <-]. unfold execute_post. cbn [stepNumber].
      split; [done|]. split.
      { intros k Hk. cbn [workflows]. rewrite lookup_insert_ne by done.
        apply (Hothers k Hk). }
      exists w, w4, o. cbn [workflows workflow_logs ticks].
      rewrite lookup_insert_eq, Hst4, Hall.
      split_and!;
        first [ done | congruence
              | by rewrite Hso4, Hso3
              | by (intros n Hn; rewrite Hso4, Hso3, Hso2', Hso1', Hso1)
              | by (exists (S (S (ticks σ3))); split; [lia|];
                    rewrite Hcom4, Hclk3)
              | by (rewrite Hlog3, <- app_assoc; unfold run_logs; cbn [app];
                    rewrite Hid3, Hid2, Hid1', Hid1)
              | by (eexists; exact Hdisp) ].
    + unfold bind at 1. unfold ret.
      intros [= <- <-]. unfold execute_post. cbn [stepNumber].
      split; [done|]. split; [exact Hothers|].
      exists w, w3, o. cbn [workflows workflow_logs ticks].
      rewrite lookup_insert_eq, Hall.
      split_and!;
        first [ done | congruence
              | by rewrite Hso3
              | by (intros n Hn; rewrite Hso3, Hso2', Hso1', Hso1)
              | by (rewrite Hlog3, <- app_assoc; unfold run_logs; cbn [app];
                    rewrite Hid3, Hid2, Hid1', Hid1)
              | by (eexists; exact Hdisp) ].
  - (* the collaborator threw [e] *)
    destruct Hd as (Hwf3 & Hlog3 & Hclk3 & Htk3).
    cbn [workflows workflow_logs queries clock ticks] in *.
    unfold bind at 1.
    rewrite (updateStepStatus_run wid s error σ3 w1)
      by (rewrite Hwf3; apply lookup_insert_eq).
    cbn [workflows workflow_logs queries clock ticks].
    destruct (decide (error = in_progress)) as [|_]; [done|].
    destruct (statusUpdate_fields (clock σ3 (ticks σ3)) s error (currentStep w1) w1)
      as (Hst2 & Hcs2 & Hlf2 & Hso2).
    apply lifecycle_fields_inv in Hlf2 as (Hid2 & Hvs2 & Hstat2 & Herr2 & Hsta2 & Hcom2).
    set (w2 := applyUpdates _ _ w1) in *.
    unfold bind at 1. rewrite logWorkflowProgress_run.
    cbn [workflows workflow_logs queries clock ticks].
    unfold bind at 1. unfold failWorkflow.
    rewrite (updateWorkflow_run wid _ _ w2)
      by (cbn [workflows]; apply lookup_insert_eq).
    cbn [workflows workflow_logs queries clock ticks].
    destruct (failUpdate_fields (clock σ3 (S (ticks σ3))) e w2)
      as (Hst4 & Hcs4 & Hso4 & Hid4 & Hsta4 & Hcom4 & Hstat4 & Herr4).
    set (w4 := applyUpdates _ _ w2) in *.
    unfold ret. intros [= <- <-]. unfold execute_post. cbn [stepNumber].
    split; [done|]. split.
    { intros k Hk. cbn [workflows]. rewrite !lookup_insert_ne by done.
      rewrite Hwf3, lookup_insert_ne by done.
      destruct (workflows σ !! k); by constructor. }
    exists w, w4. cbn [workflows workflow_logs ticks].
    rewrite lookup_insert_eq.
    split_and!;
      first [ done | congruence
            | by (rewrite Hst4, Hst2, Hst1; apply insert_insert_eq)
            | by (intros n; rewrite Hso4, Hso2, Hso1)
            | by (rewrite Hlog3, <- app_assoc; unfold run_logs; cbn [app];
                  rewrite Hid1)
            | by (eexists; exact Hdisp) ].
Qed.

(** ** Forced execution *)

(** C2. With a truthy [force], the execute handler never answers with the
    prerequisite error nor with the already-completed error, whatever the
    step statuses are; for an existing workflow and a step in 1..7 the
    request goes through to the collaborator, so the answer is a success or
    the collaborator's failure. *)
Theorem force_bypasses_prechecks (svc : Services) (wid : string) (s : Z)
    (force : JsValue) (σ : World) :
  1 ≤ s ≤ 7 →
  truthy force = true →
  let r := (executeRoute svc wid (Some s) force σ).1 in
  (∀ ms, r ≠ Ok (Failure (PrerequisiteError ms)))
  ∧ r ≠ Ok (Failure AlreadyCompleted)
  ∧ (is_Some (workflows σ !! wid) →
     (∃ wf o, r = Ok (Success (wf, o)))
     ∨ ∃ message, r = Ok (Failure (ExecutionError message))).
Proof.
  intros Hs Hf r.
  destruct (executeRoute svc wid (Some s) force σ) as [r' σ'] eqn:Hrun.
  apply executeRoute_post in Hrun. subst r. cbn [fst].
  split_and!.
  - intros ms ->. destruct Hrun as (_ & Hf' & _). congruence.
  - intros ->. destruct Hrun as (_ & Hf' & _). congruence.
  - intros [w Hw].
    destruct r' as [[[wf o]|e]|e]; [eauto| |done].
    destruct e; try done; unfold execute_post in Hrun.
    + destruct Hrun as (Hinv & _). simpl in Hinv.
      apply orb_true_iff in Hinv. lia.
    + destruct Hrun as (_ & Hnone & _). congruence.
    + destruct Hrun as (_ & Hf' & _). congruence.
    + destruct Hrun as (_ & Hf' & _). congruence.
    + eauto.
Qed.

Lemma force_bypasses_prechecks_witness :
  let r := (executeRoute working_services "wf-1" (Some 2) (JsBool true)
              created_world).1 in
  (∀ ms, r ≠ Ok (Failure (PrerequisiteError ms)))
  ∧ r ≠ Ok (Failure AlreadyCompleted)
  ∧ (is_Some (workflows created_world !! "wf-1") →
     (∃ wf o, r = Ok (Success (wf, o)))
     ∨ ∃ message, r = Ok (Failure (ExecutionError message))).
Proof.
  apply (force_bypasses_prechecks working_services "wf-1" 2 (JsBool true)
           created_world); [lia | reflexivity].
Defined.

(** ** A failing step *)

Lemma outputs_stepOutput (w w' : Workflow) :
  (∀ n, stepOutput w' n = stepOutput w n) → outputs w' = outputs w.
Proof.
  intros H. unfold outputs.
  pose proof (H 1) as H1. pose proof (H 2) as H2. pose proof (H 3) as H3.
  pose proof (H 4) as H4. pose proof (H 5) as H5. pose proof (H 6) as H6.
  pose proof (H 7) as H7. cbn [stepOutput] in *. congruence.
Qed.

Lemma in_progress_row_fields (σ : World) (s : Z) (w : Workflow) :
  stepStatuses (in_progress_row σ s w) = <[s := in_progress]> (stepStatuses w)
  ∧ outputs (in_progress_row σ s w) = outputs w
  ∧ id (in_progress_row σ s w) = id w.
Proof. unfold in_progress_row. by destruct w. Qed.

(** C3. Let step [s] of an existing workflow be admitted for execution,
    and let its collaborator, called at the failure point (the row marked
    [in_progress], stored and logged), throw [message].  Then the execute
    handler answers with the execution error carrying [message]; step [s] is
    [error], the workflow is in status [error] with
    [errorMessage = message], every other step status and all seven step
    outputs are exactly those of the failure point, and the log has grown
    by the in-progress row and exactly one error row for step [s]. *)
Theorem failed_step_recorded (svc : Services) (wid : string) (s : Z)
    (force : JsValue) (σ σ2 : World) (w : Workflow) (message : string) :
  workflows σ !! wid = Some w →
  1 ≤ s ≤ 7 →
  admitted w s force →
  dispatch svc s (in_progress_row σ s w) (in_progress_world σ wid s w)
    = (Throw message, σ2) →
  ∃ σ' w' added,
    executeRoute svc wid (Some s) force σ
      = (Ok (Failure (ExecutionError message)), σ')
    ∧ workflows σ' !! wid = Some w'
    ∧ stepStatuses w' !! s = Some error
    ∧ (∀ n, n ≠ s →
            stepStatuses w' !! n = stepStatuses (in_progress_row σ s w) !! n)
    ∧ status w' = WfError
    ∧ errorMessage w' = Some message
    ∧ outputs w' = outputs (in_progress_row σ s w)
    ∧ workflow_logs σ' = workflow_logs σ ++ added
    ∧ error_entries s added = [mkLog (id w) s "error" message None]
    ∧ ∀ n, n ≠ s → error_entries n added = [].
Proof.
  intros Hw Hs Hadm Hdisp.
  destruct (in_progress_row_fields σ s w) as (Hst1 & Hout1 & _).
  destruct (executeRoute svc wid (Some s) force σ) as [r σ'] eqn:Hrun.
  pose proof (executeRoute_post _ _ _ _ _ _ _ Hrun) as Hpost.
  unfold execute_post in Hpost. cbn [stepNumber] in Hpost.
  destruct r as [[[wf out]|e]|e]; [| |done].
  { destruct Hpost as (_ & _ & w0 & w' & o & _ & Hw0 & Hpost).
    rewrite Hw in Hw0. injection Hw0 as <-.
    repeat (destruct Hpost as [_ Hpost]). destruct Hpost as [σ3 Hpost].
    congruence. }
  destruct e as [| | |ms| |message']; try done.
  - destruct Hpost as [Hinv _]. cbn [invalidStep] in Hinv.
    apply orb_true_iff in Hinv. lia.
  - destruct Hpost as (_ & Hnone & _). congruence.
  - destruct Hpost as (_ & Hf & _ & w0 & Hw0 & Hcan).
    rewrite Hw in Hw0. injection Hw0 as <-.
    destruct (Hadm Hf) as [Hc _]. rewrite Hcan in Hc. discriminate.
  - destruct Hpost as (_ & Hf & _ & w0 & Hw0 & Hdone).
    rewrite Hw in Hw0. injection Hw0 as <-.
    destruct (Hadm Hf) as [_ Hnc]. done.
  - destruct Hpost as (_ & _ & w0 & w' & Hw0 & Hw' & _ & Hst & Hstat & Herr
                       & Hout & _ & _ & _ & _ & Hlog & σ3 & Hdisp').
    rewrite Hw in Hw0. injection Hw0 as <-.
    assert (message' = message) as -> by congruence.
    exists σ', w', (run_logs w s "error" message).
    split_and!; try done.
    + rewrite Hst. apply lookup_insert_eq.
    + intros n Hn. rewrite Hst, Hst1, !lookup_insert_ne; done.
    + rewrite Hout1. by apply outputs_stepOutput.
    + unfold error_entries, run_logs. cbn [List.filter log_status log_step].
      rewrite bool_decide_eq_false_2 by (intros [[=] _]).
      by rewrite bool_decide_eq_true_2.
    + intros n Hn. unfold error_entries, run_logs.
      cbn [List.filter log_status log_step].
      rewrite !bool_decide_eq_false_2;
        [done | intros [_ ?]; done | intros [[=] _]].
Qed.

Lemma failed_step_recorded_witness :
  ∃ w σ' w' added,
    workflows created_world !! "wf-1" = Some w
    ∧ executeRoute failing_services "wf-1" (Some 1) JsUndefined created_world
      = (Ok (Failure (ExecutionError "Failed to download video (404)")), σ')
    ∧ workflows σ' !! "wf-1" = Some w'
    ∧ stepStatuses w' !! 1 = Some error
    ∧ status w' = WfError
    ∧ errorMessage w' = Some "Failed to download video (404)"
    ∧ workflow_logs σ' = workflow_logs created_world ++ added
    ∧ error_entries 1 added
      = [mkLog (id w) 1 "error" "Failed to download video (404)" None].
Proof.
  destruct (workflows created_world !! "wf-1") as [w|] eqn:Hw;
    [|by vm_compute in Hw].
  assert (admitted w 1 JsUndefined) as Hadm.
  { intros _. assert (Some w = Some w) as Hw' by reflexivity.
    rewrite <- Hw in Hw' at 1. vm_compute in Hw'. injection Hw' as <-.
    split; [reflexivity | discriminate]. }
  destruct (failed_step_recorded failing_services "wf-1" 1 JsUndefined
              created_world
              (in_progress_world created_world "wf-1" 1 w) w
              "Failed to download video (404)" Hw)
    as (σ' & w' & added & ? & ? & ? & _ & ? & ? & _ & ? & ? & _);
    [lia | exact Hadm | reflexivity |].
  exists w, σ', w', added. split_and!; assumption || reflexivity.
Defined.

(** ** Completion of the pipeline *)

Lemma allComplete_spec (m : gmap Z StepStatus) :
  allComplete m = true ↔ map_Forall (λ _ st, done_or_skipped st) m.
Proof.
  unfold allComplete. rewrite forallb_forall. unfold map_Forall. split.
  - intros H n st Hn. apply elem_of_map_to_list in Hn.
    assert (In st (map_to_list m).*2) as Hin.
    { apply list_elem_of_In, list_elem_of_fmap. by exists (n, st). }
    apply H, orb_true_iff in Hin as [Hc|Hc];
      apply bool_decide_eq_true in Hc; [by left | by right].
  - intros H st Hin.
    apply list_elem_of_In, list_elem_of_fmap in Hin as ([n st'] & -> & Hin).
    apply elem_of_map_to_list in Hin.
    destruct (H n st' Hin) as [-> | ->]; done.
Qed.

(** C4, as the code has it.  After a successful step, if every entry of
    [stepStatuses] is [completed] or [skipped] the workflow is in status
    [completed] and [completedAt] is a clock reading taken during this very
    request, whatever it was before; otherwise the workflow is not promoted:
    its status and [completedAt] are what they were. *)
Theorem completion_promotes (svc : Services) (wid : string) (sp : option Z)
    (force : JsValue) (σ σ' : World) (wf : Workflow) (out : option Json) :
  executeRoute svc wid sp force σ = (Ok (Success (wf, out)), σ') →
  ∃ w,
    workflows σ !! wid = Some w
    ∧ workflows σ' !! wid = Some wf
    ∧ (map_Forall (λ _ st, done_or_skipped st) (stepStatuses wf) →
       status wf = WfCompleted
       ∧ ∃ k, (ticks σ ≤ k < ticks σ')%nat
              ∧ completedAt wf = Some (clock σ k))
    ∧ (¬ map_Forall (λ _ st, done_or_skipped st) (stepStatuses wf) →
       status wf = status w ∧ completedAt wf = completedAt w).
Proof.
  intros Hrun. apply executeRoute_post in Hrun.
  destruct Hrun as (_ & _ & w & w' & o & _ & Hw & Hw' & -> & _ & _ & _ & _
                    & _ & _ & _ & _ & Hall & _).
  exists w. split_and!; try done.
  - intros HF. apply allComplete_spec in HF. by rewrite HF in Hall.
  - intros HF. destruct (allComplete (stepStatuses w')) eqn:E; [|done].
    by apply allComplete_spec in E.
Qed.

(** C4, the statement of the specification fails: re-running step 7 of a
    finished workflow with [force] completes it again and replaces the
    completion time. *)
Lemma completedAt_overwritten : ¬ completedAt_set_once.
Proof.
  intros H.
  destruct (workflows finished_world !! "wf-1") as [w|] eqn:Hw;
    [|by vm_compute in Hw].
  destruct (executeRoute working_services "wf-1" (Some 7) (JsBool true)
              finished_world) as [r σ'] eqn:Hrun.
  assert (r = (executeRoute working_services "wf-1" (Some 7) (JsBool true)
                 finished_world).1) as Hr by (by rewrite Hrun).
  vm_compute in Hr. subst r.
  pose proof Hw as Hw0. vm_compute in Hw. injection Hw as <-.
  match type of Hw0 with _ = Some ?w =>
    assert (is_Some (completedAt w)) as His by (eexists; reflexivity) end.
  match type of Hrun with _ = (Ok (Success (?wf, _)), _) =>
    assert (map_Forall (λ _ st, done_or_skipped st) (stepStatuses wf))
      as Hall by (apply allComplete_spec; vm_compute; reflexivity) end.
  pose proof (H _ _ _ _ _ _ _ _ _ Hw0 His Hrun Hall) as Heq.
  vm_compute in Heq. discriminate.
Qed.

Lemma completion_promotes_witness :
  ∃ wf out σ',
    executeRoute working_services "wf-1" (Some 7) (JsBool true) finished_world
      = (Ok (Success (wf, out)), σ')
    ∧ status wf = WfCompleted
    ∧ ∃ k, (ticks finished_world ≤ k < ticks σ')%nat
           ∧ completedAt wf = Some (sample_clock k).
Proof.
  destruct (executeRoute working_services "wf-1" (Some 7) (JsBool true)
              finished_world) as [r σ'] eqn:Hrun.
  assert (r = (executeRoute working_services "wf-1" (Some 7) (JsBool true)
                 finished_world).1) as Hr by (by rewrite Hrun).
  vm_compute in Hr. subst r.
  match type of Hrun with _ = (Ok (Success (?wf, ?out)), _) =>
    exists wf, out, σ' end.
  split; [reflexivity|].
  destruct (completion_promotes _ _ _ _ _ _ _ _ Hrun) as (w & _ & _ & Hall & _).
  apply Hall. apply allComplete_spec. vm_compute. reflexivity.
Defined.

(** ** Requests that are turned down *)

(** C9. A request without [force] for a step of 1..7 whose prerequisites
    are not all [completed] is answered with the prerequisite error
    carrying the missing step numbers, which are not empty; the handler has
    only read the workflow: the rows and the log are unchanged. *)
Theorem blocked_step_no_mutation (svc : Services) (wid : string) (s : Z)
    (force : JsValue) (σ : World) (w : Workflow) :
  workflows σ !! wid = Some w →
  1 ≤ s ≤ 7 →
  truthy force = false →
  canExecute (canExecuteStep w s) = false →
  let missing := missingPrerequisites (canExecuteStep w s) in
  executeRoute svc wid (Some s) force σ
  = (Ok (Failure (PrerequisiteError missing)),
     mkWorld (workflows σ) (workflow_logs σ)
             (queries σ ++ [QSelectWorkflow wid]) (clock σ) (ticks σ))
  ∧ missing ≠ []
  ∧ ∀ p, In p missing ↔ In p (prerequisite_graph s) ∧ ¬ satisfied w p.
Proof.
  intros Hw Hs Hf Hc missing. subst missing. split_and!.
  - unfold executeRoute.
    replace (invalidStep (Some s)) with false
      by (symmetry; apply orb_false_iff; lia).
    cbn [stepNumber]. unfold bind. rewrite getWorkflow_run, Hw.
    unfold checkStepPrerequisites. cbn [sc_canExecute sc_missingPrerequisites].
    rewrite Hc, Hf. reflexivity.
  - revert Hc. unfold canExecuteStep.
    destruct (getStepDefinition_in_range s Hs) as (d & -> & _ & _).
    cbn [canExecute missingPrerequisites].
    destruct (List.filter _ _); [discriminate | done].
  - intros p. unfold canExecuteStep.
    destruct (getStepDefinition_in_range s Hs) as (d & -> & _ & ->).
    cbn [missingPrerequisites]. rewrite filter_In, not_completed_spec. done.
Qed.

Lemma blocked_step_no_mutation_witness :
  executeRoute working_services "wf-1" (Some 2) JsUndefined created_world
  = (Ok (Failure (PrerequisiteError [1])),
     mkWorld (workflows created_world) (workflow_logs created_world)
             (queries created_world ++ [QSelectWorkflow "wf-1"])
             (clock created_world) (ticks created_world)).
Proof.
  destruct (workflows created_world !! "wf-1") as [w|] eqn:Hw;
    [|by vm_compute in Hw].
  assert (canExecuteStep w 2 = mkCheck false [1]) as Hc.
  { vm_compute in Hw. injection Hw as <-. vm_compute. reflexivity. }
  destruct (blocked_step_no_mutation working_services "wf-1" 2 JsUndefined
              created_world w Hw) as (Hrun & _); [lia | reflexivity | | ].
  - by rewrite Hc.
  - rewrite Hrun, Hc. reflexivity.
Defined.

(** C8, as the code has it.  A step parameter that is NaN or outside 1..7
    makes the execute handler answer [InvalidStep] at once, the world
    untouched and no query sent.  The step-status handler loads the workflow
    first: it always sends one [select], answers [NotFound] when there is no
    such workflow, and [InvalidStep] only when there is one. *)
Theorem invalid_step_rejected (svc : Services) (wid : string)
    (sp : option Z) (force : JsValue) (σ : World) :
  invalidStep sp = true →
  executeRoute svc wid sp force σ = (Ok (Failure InvalidStep), σ)
  ∧ getStepRoute wid sp σ
    = (Ok (Failure match workflows σ !! wid with
                   | Some _ => InvalidStep
                   | None => NotFound
                   end),
       mkWorld (workflows σ) (workflow_logs σ)
               (queries σ ++ [QSelectWorkflow wid]) (clock σ) (ticks σ)).
Proof.
  intros H. split.
  - unfold executeRoute. by rewrite H.
  - unfold getStepRoute, bind. rewrite getWorkflow_run.
    destruct (workflows σ !! wid); [by rewrite H | done].
Qed.

Lemma invalid_step_rejected_witness :
  executeRoute working_services "wf-1" (Some 0) JsUndefined created_world
  = (Ok (Failure InvalidStep), created_world)
  ∧ executeRoute working_services "wf-1" (Some 8) JsUndefined created_world
    = (Ok (Failure InvalidStep), created_world).
Proof.
  split.
  - apply (invalid_step_rejected working_services "wf-1" (Some 0) JsUndefined
             created_world). reflexivity.
  - apply (invalid_step_rejected working_services "wf-1" (Some 8) JsUndefined
             created_world). reflexivity.
Defined.

(** C8, the statement of the specification fails for the step-status
    handler: asked for step 0 of an existing workflow it has queried the
    store by the time it answers. *)
Lemma step_status_reads_first : ¬ step_validation_precedes_reads.
Proof.
  intros [_ H].
  destruct (H "wf-1" (Some 0) created_world) as [_ Hq]; [reflexivity|].
  vm_compute in Hq. discriminate.
Qed.

(** ** Starting and resuming *)

Lemma lookup_foldl_insert_pending (l : list Z) (m : gmap Z StepStatus) (n : Z) :
  foldl (λ acc i, <[i := pending]> acc) m l !! n
  = if decide (n ∈ l) then Some pending else m !! n.
Proof.
  revert m. induction l as [|i l IH]; intros m; [done|].
  cbn [foldl]. rewrite IH.
  destruct (decide (n ∈ l)) as [Hin|Hin].
  - rewrite decide_True by (by apply elem_of_cons; right). done.
  - destruct (decide (n = i)) as [->|Hne].
    + rewrite lookup_insert_eq, decide_True by (by apply elem_of_cons; left).
      done.
    + rewrite lookup_insert_ne by done.
      rewrite decide_False; [done|].
      intros [?|?]%elem_of_cons; done.
Qed.

Lemma lookup_resetFrom (k : Z) (m : gmap Z StepStatus) (n : Z) :
  resetFrom k m !! n = if decide (k ≤ n ≤ 7) then Some pending else m !! n.
Proof.
  unfold resetFrom. rewrite lookup_foldl_insert_pending.
  destruct (decide (k ≤ n ≤ 7)) as [H|H].
  - rewrite decide_True; [done|]. apply elem_of_seqZ. lia.
  - rewrite decide_False; [done|]. rewrite elem_of_seqZ. lia.
Qed.

Lemma startWorkflow_run (wid : string) (fromStep : option (option Z))
    (σ : World) (w : Workflow) :
  workflows σ !! wid = Some w →
  let now := clock σ (ticks σ) in
  let updates :=
    ([UStatus WfInProgress; UErrorMessage None]
     ++ (if truthy_str (startedAt w) then [] else [UStartedAt now]))
    ++ match fromStep with
       | Some (Some k) =>
           if (1 <=? k) && (k <=? 7)
           then [UStepStatuses (resetFrom k (stepStatuses w)); UCurrentStep k]
           else []
       | _ => []
       end in
  let w' := applyUpdates (clock σ (S (ticks σ))) updates w in
  startWorkflow wid fromStep σ
  = (Ok w',
     mkWorld (<[wid := w']> (workflows σ)) (workflow_logs σ)
             ((queries σ ++ [QSelectWorkflow wid]) ++ [QUpdateWorkflow wid])
             (clock σ) (S (S (ticks σ)))).
Proof.
  intros Hw now updates w'. subst w' updates now.
  unfold startWorkflow. unfold bind at 1. rewrite getWorkflow_run, Hw.
  unfold bind at 1. unfold nowISO.
  cbn [workflows workflow_logs queries clock ticks].
  match goal with |- updateWorkflow wid ?us ?σ1 = _ =>
    rewrite (updateWorkflow_run wid us σ1 w) by exact Hw end.
  cbn [workflows workflow_logs queries clock ticks].
  destruct (truthy_str (startedAt w)); cbn [negb];
    destruct fromStep as [[k|]|]; try reflexivity;
    destruct ((1 <=? k) && (k <=? 7)); rewrite ?app_nil_r; reflexivity.
Qed.

(** C5. For [k] in 1..7, [startWorkflow(id, k)] on an existing workflow
    puts it in status [in_progress], makes the statuses of steps [k] to 7
    [pending], leaves every other entry of [stepStatuses] and the seven
    output slots as they were, and sets [currentStep] to [k]; [startedAt] is
    written, with the current time, only when the row had none (null, or
    the empty string, which the store never holds). *)
Theorem start_resets_from (wid : string) (k : Z) (σ : World) (w : Workflow) :
  workflows σ !! wid = Some w →
  1 ≤ k ≤ 7 →
  ∃ w' σ',
    startWorkflow wid (Some (Some k)) σ = (Ok w', σ')
    ∧ workflows σ' !! wid = Some w'
    ∧ status w' = WfInProgress
    ∧ (∀ n, k ≤ n ≤ 7 → stepStatuses w' !! n = Some pending)
    ∧ (∀ n, ¬ (k ≤ n ≤ 7) → stepStatuses w' !! n = stepStatuses w !! n)
    ∧ outputs w' = outputs w
    ∧ currentStep w' = k
    ∧ startedAt w'
      = (if truthy_str (startedAt w) then startedAt w
         else Some (clock σ (ticks σ))).
Proof.
  intros Hw Hk. eexists _, _.
  split; [apply (startWorkflow_run wid (Some (Some k)) σ w Hw)|].
  cbn [workflows]. rewrite lookup_insert_eq.
  replace ((1 <=? k) && (k <=? 7)) with true
    by (symmetry; apply andb_true_iff; lia).
  assert (∀ us, us = [] ∨ (∃ t, us = [UStartedAt t]) →
    let w' := applyUpdates (clock σ (S (ticks σ)))
                (([UStatus WfInProgress; UErrorMessage None] ++ us)
                 ++ [UStepStatuses (resetFrom k (stepStatuses w));
                     UCurrentStep k]) w in
    status w' = WfInProgress
    ∧ stepStatuses w' = resetFrom k (stepStatuses w)
    ∧ outputs w' = outputs w ∧ currentStep w' = k
    ∧ startedAt w' = match us with
                     | UStartedAt t :: _ => Some t
                     | _ => startedAt w
                     end) as Hfields.
  { intros us [->|[t ->]]; by destruct w. }
  destruct (truthy_str (startedAt w)) eqn:Hst.
  - destruct (Hfields [] (or_introl eq_refl)) as (H1 & H2 & H3 & H4 & H5).
    split_and!; try done.
    + intros n Hn. rewrite H2, lookup_resetFrom, decide_True; done.
    + intros n Hn. rewrite H2, lookup_resetFrom, decide_False; done.
  - destruct (Hfields [UStartedAt (clock σ (ticks σ))]
                (or_intror (ex_intro _ _ eq_refl)))
      as (H1 & H2 & H3 & H4 & H5).
    split_and!; try done.
    + intros n Hn. rewrite H2, lookup_resetFrom, decide_True; done.
    + intros n Hn. rewrite H2, lookup_resetFrom, decide_False; done.
Qed.

Lemma start_resets_from_witness :
  ∃ w' σ',
    startWorkflow "wf-1" (Some (Some 3)) finished_world = (Ok w', σ')
    ∧ status w' = WfInProgress
    ∧ stepStatuses w' !! 2 = Some completed
    ∧ stepStatuses w' !! 3 = Some pending
    ∧ stepStatuses w' !! 7 = Some pending
    ∧ step3Output w' = Some "{}"
    ∧ currentStep w' = 3.
Proof.
  assert (option_map (λ w, (stepStatuses w !! 2, step3Output w))
            (workflows finished_world !! "wf-1")
          = Some (Some completed, Some "{}")) as Hfacts
    by (vm_compute; reflexivity).
  destruct (workflows finished_world !! "wf-1") as [w|] eqn:Hw;
    [|discriminate].
  cbn [option_map] in Hfacts. injection Hfacts as H2 H3.
  destruct (start_resets_from "wf-1" 3 finished_world w Hw)
    as (w' & σ' & Hrun & _ & Hst & Hreset & Hkeep & Hout & Hcur & _); [lia|].
  exists w', σ'.
  split; [exact Hrun|]. split; [exact Hst|].
  split; [rewrite Hkeep by lia; exact H2|].
  split; [apply Hreset; lia|]. split; [apply Hreset; lia|].
  split; [|exact Hcur].
  unfold outputs in Hout. injection Hout as _ _ Hout _ _ _ _. congruence.
Defined.

(** C10. Every [startWorkflow] on an existing workflow, with or without
    [fromStep], succeeds and leaves [errorMessage] null and the status
    [in_progress]; when [fromStep] is a number that is NaN or outside 1..7
    the call does exactly what it does without [fromStep], and no step
    status changes. *)
Theorem start_clears_error (wid : string) (fromStep : option (option Z))
    (σ : World) (w : Workflow) :
  workflows σ !! wid = Some w →
  ∃ w' σ',
    startWorkflow wid fromStep σ = (Ok w', σ')
    ∧ workflows σ' !! wid = Some w'
    ∧ errorMessage w' = None
    ∧ status w' = WfInProgress
    ∧ ∀ k, fromStep = Some k → invalidStep k = true →
           startWorkflow wid None σ = (Ok w', σ')
           ∧ stepStatuses w' = stepStatuses w.
Proof.
  intros Hw. eexists _, _.
  split; [apply (startWorkflow_run wid fromStep σ w Hw)|].
  cbn [workflows]. rewrite lookup_insert_eq.
  split_and!; try done.
  - destruct (truthy_str (startedAt w)); destruct fromStep as [[k|]|];
      try (by destruct w); destruct ((1 <=? k) && (k <=? 7)); by destruct w.
  - destruct (truthy_str (startedAt w)); destruct fromStep as [[k|]|];
      try (by destruct w); destruct ((1 <=? k) && (k <=? 7)); by destruct w.
  - intros k -> Hk.
    rewrite (startWorkflow_run wid None σ w Hw).
    destruct k as [k|]; cbn [invalidStep] in Hk.
    + replace ((1 <=? k) && (k <=? 7)) with false
        by (symmetry; apply andb_false_iff; apply orb_true_iff in Hk; lia).
      split; [done|]. destruct (truthy_str (startedAt w)); by destruct w.
    + split; [done|]. destruct (truthy_str (startedAt w)); by destruct w.
Qed.

Lemma start_clears_error_witness :
  ∃ w w' σ',
    workflows failed_world !! "wf-1" = Some w
    ∧ startWorkflow "wf-1" (Some (Some 9)) failed_world = (Ok w', σ')
    ∧ errorMessage w' = None
    ∧ status w' = WfInProgress
    ∧ startWorkflow "wf-1" None failed_world = (Ok w', σ')
    ∧ stepStatuses w' = stepStatuses w.
Proof.
  destruct (workflows failed_world !! "wf-1") as [w|] eqn:Hw;
    [|by vm_compute in Hw].
  destruct (start_clears_error "wf-1" (Some (Some 9)) failed_world w Hw)
    as (w' & σ' & Hrun & _ & Herr & Hst & Hsame).
  destruct (Hsame (Some 9) eq_refl eq_refl) as [Hnone Hsteps].
  exists w, w', σ'. split_and!; assumption || reflexivity.
Defined.

(** ** Outputs and statuses *)

Lemma steps_preserved_refl (σ σ' : World) :
  workflows σ' = workflows σ → steps_preserved σ σ'.
Proof.
  intros H k. rewrite H. destruct (workflows σ !! k); by constructor.
Qed.

Lemma steps_preserved_inv (σ σ' : World) :
  steps_preserved σ σ' →
  output_only_if_completed σ → output_only_if_completed σ'.
Proof.
  intros Hp Hinv wid w' n Hw' Hout. specialize (Hp wid).
  rewrite Hw' in Hp. inversion Hp as [w ? [Hst Hso] Heq|]; subst.
  rewrite Hst. apply (Hinv wid w n); [done|]. by rewrite <- Hso.
Qed.

Lemma applyUpdates_keeps_steps (t : string) (us : list FieldUpdate)
    (w : Workflow) :
  Forall keeps_steps us →
  stepStatuses (applyUpdates t us w) = stepStatuses w
  ∧ ∀ n, stepOutput (applyUpdates t us w) n = stepOutput w n.
Proof.
  unfold applyUpdates. intros H.
  assert (stepStatuses (set_updatedAt t w) = stepStatuses w
          ∧ ∀ n, stepOutput (set_updatedAt t w) n = stepOutput w n) as Hbase
    by (by destruct w).
  revert Hbase. generalize (set_updatedAt t w) as w0.
  induction H as [|u us Hu _ IH]; intros w0 Hbase; [done|].
  cbn [foldl]. apply IH.
  destruct Hbase as [H1 H2]. destruct u; try done; by destruct w0.
Qed.

Lemma updateWorkflow_keeps_steps (wid : string) (us : list FieldUpdate)
    (σ : World) :
  Forall keeps_steps us →
  steps_preserved σ (updateWorkflow wid us σ).2.
Proof.
  intros Hus. destruct (workflows σ !! wid) as [row|] eqn:Hrow.
  - rewrite (updateWorkflow_run _ _ _ row) by exact Hrow.
    intros k. cbn [snd workflows].
    destruct (decide (k = wid)) as [->|Hne].
    + rewrite lookup_insert_eq, Hrow. constructor.
      by apply applyUpdates_keeps_steps.
    + rewrite lookup_insert_ne by done.
      destruct (workflows σ !! k); by constructor.
  - destruct (updateWorkflow_missing wid us σ Hrow) as (e & σ' & -> & H & _).
    by apply steps_preserved_refl.
Qed.

Lemma insertedRow_no_output (d : RowDefaults) (src cfg : string)
    (e b so : option string) (n : Z) :
  stepOutput (insertedRow d src cfg e b so) n = None.
Proof.
  unfold stepOutput, insertedRow. cbn.
  destruct n as [|p|p]; try reflexivity.
  repeat (destruct p as [p|p|]; try reflexivity).
Qed.

Lemma postWorkflow_inv (d : RowDefaults) (body : CreateBody) (σ : World) :
  output_only_if_completed σ →
  output_only_if_completed (postWorkflow d body σ).2.
Proof.
  intros Hinv. unfold postWorkflow.
  destruct (_ || _); [exact Hinv|].
  unfold bind, createWorkflow, ret, set_workflows.
  destruct (workflows σ !! new_id d) as [old|] eqn:Hid; cbn [snd].
  - intros wid row n. cbn [workflows]. apply Hinv.
  - intros wid row n. cbn [workflows].
    destruct (decide (wid = new_id d)) as [->|Hne].
    + rewrite lookup_insert_eq. intros [= <-].
      rewrite insertedRow_no_output. by intros [? [=]].
    + rewrite lookup_insert_ne by done. apply Hinv.
Qed.

Lemma executeRoute_inv (svc : Services) (wid : string) (sp : option Z)
    (force : JsValue) (σ : World) :
  truthy force = false →
  output_only_if_completed σ →
  output_only_if_completed (executeRoute svc wid sp force σ).2.
Proof.
  intros Hf Hinv.
  destruct (executeRoute svc wid sp force σ) as [r σ'] eqn:Hrun.
  apply executeRoute_post in Hrun. cbn [snd].
  assert (∀ w' : Workflow, others_framed wid σ σ' →
            workflows σ' !! wid = Some w' →
            (∀ n, is_Some (stepOutput w' n) →
                  stepStatuses w' !! n = Some completed) →
            output_only_if_completed σ') as Hstep.
  { intros w' Hothers Hw' Hrow k w0 n Hk Hout.
    destruct (decide (k = wid)) as [->|Hne].
    - rewrite Hw' in Hk. injection Hk as <-. by apply Hrow.
    - specialize (Hothers k Hne). rewrite Hk in Hothers.
      inversion Hothers as [w1 ? Hsame Heq|]; subst.
      apply engine_fields_inv in Hsame as (Hst & _ & _ & Hso).
      rewrite Hst. apply (Hinv k w1 n); [done|]. by rewrite <- Hso. }
  destruct r as [[[wf out]|e]|e]; [| |done].
  - destruct Hrun as (_ & Hothers & w & w' & o & _ & Hw & Hw' & _ & _ & Hst
                      & Hso & Hso' & _).
    apply (Hstep w' Hothers Hw'). intros n Hout. rewrite Hst.
    destruct (decide (n = stepNumber sp)) as [->|Hne].
    + apply lookup_insert_eq.
    + rewrite lookup_insert_ne by done. apply (Hinv wid w n Hw).
      by rewrite <- Hso'.
  - destruct e; unfold execute_post in Hrun; try done.
    + by destruct Hrun as (_ & ->).
    + destruct Hrun as (_ & _ & Hd & _).
      apply (steps_preserved_inv σ); [|done].
      apply steps_preserved_refl, Hd.
    + destruct Hrun as (_ & _ & Hd & _).
      apply (steps_preserved_inv σ); [|done].
      apply steps_preserved_refl, Hd.
    + destruct Hrun as (_ & _ & Hd & _).
      apply (steps_preserved_inv σ); [|done].
      apply steps_preserved_refl, Hd.
    + destruct Hrun as (_ & Hothers & w & w' & Hw & Hw' & Hadm & Hst & _ & _
                        & Hso & _).
      apply (Hstep w' Hothers Hw'). intros n Hout. rewrite Hst.
      rewrite Hso in Hout. pose proof (Hinv wid w n Hw Hout) as Hc.
      destruct (decide (n = stepNumber sp)) as [->|Hne].
      * destruct (Hadm Hf) as [_ Hnc]. done.
      * by rewrite lookup_insert_ne.
Qed.

Lemma startWorkflow_inv (wid : string) (fromStep : option (option Z))
    (σ : World) :
  match fromStep with
  | Some k => invalidStep k = true
  | None => True
  end →
  steps_preserved σ (startWorkflow wid fromStep σ).2.
Proof.
  intros Hk. destruct (workflows σ !! wid) as [w|] eqn:Hw.
  - rewrite (startWorkflow_run wid fromStep σ w Hw). cbn [snd].
    intros k. cbn [workflows].
    destruct (decide (k = wid)) as [->|Hne].
    + rewrite lookup_insert_eq, Hw. constructor.
      apply applyUpdates_keeps_steps.
      apply Forall_app. split.
      * destruct (truthy_str (startedAt w)); repeat constructor.
      * destruct fromStep as [[k|]|]; try constructor.
        cbn [invalidStep] in Hk.
        replace ((1 <=? k) && (k <=? 7)) with false
          by (symmetry; apply andb_false_iff; apply orb_true_iff in Hk; lia).
        constructor.
    + rewrite lookup_insert_ne by done.
      destruct (workflows σ !! k); by constructor.
  - unfold startWorkflow, bind. rewrite getWorkflow_run, Hw.
    by apply steps_preserved_refl.
Qed.

Lemma pauseWorkflow_inv (wid : string) (σ : World) :
  steps_preserved σ (pauseWorkflow wid σ).2.
Proof.
  unfold pauseWorkflow, bind. rewrite getWorkflow_run.
  destruct (workflows σ !! wid) as [w|] eqn:Hw.
  - match goal with |- steps_preserved _ (updateWorkflow _ ?us ?σ1).2 =>
      pose proof (updateWorkflow_keeps_steps wid us σ1) as H end.
    apply H. repeat constructor.
  - by apply steps_preserved_refl.
Qed.

Lemma completeWorkflow_inv (wid : string) (σ : World) :
  steps_preserved σ (completeWorkflow wid σ).2.
Proof.
  unfold completeWorkflow, bind at 1. unfold nowISO.
  match goal with |- steps_preserved _ (updateWorkflow _ ?us ?σ1).2 =>
    pose proof (updateWorkflow_keeps_steps wid us σ1) as H end.
  apply H. repeat constructor.
Qed.

Lemma failWorkflow_inv (wid message : string) (σ : World) :
  steps_preserved σ (failWorkflow wid message σ).2.
Proof. apply updateWorkflow_keeps_steps. repeat constructor. Qed.

(** C6, as the code has it.  In every world reached from the empty
    database by create, execution without [force], start without a step
    reset, pause, complete and fail, a step output is non-null only if the
    status of that step is [completed]. *)
Theorem output_only_if_completed_invariant (σ : World) :
  reachable_by no_reset_no_force σ → output_only_if_completed σ.
Proof.
  induction 1 as [clk|op σ _ IH Hop].
  - intros wid w n Hw. unfold initialWorld in Hw. cbn [workflows] in Hw.
    by rewrite lookup_empty in Hw.
  - destruct op as [d body|svc wid sp force|wid fromStep|wid|wid|wid message];
      cbn [run_op no_reset_no_force] in *.
    + by apply postWorkflow_inv.
    + by apply executeRoute_inv.
    + apply (steps_preserved_inv σ); [|done]. by apply startWorkflow_inv.
    + apply (steps_preserved_inv σ); [|done]. apply pauseWorkflow_inv.
    + apply (steps_preserved_inv σ); [|done]. apply completeWorkflow_inv.
    + apply (steps_preserved_inv σ); [|done]. apply failWorkflow_inv.
Qed.

Lemma output_only_if_completed_invariant_witness :
  output_only_if_completed step1_done_world
  ∧ (workflows step1_done_world !! "wf-1") ≫= step1Output = Some "{}".
Proof.
  split; [|vm_compute; reflexivity].
  apply output_only_if_completed_invariant.
  unfold step1_done_world, execute_steps, created_world. cbn [foldl].
  apply reach_step; [apply reach_step; [apply reach_init | exact I]
                    | reflexivity].
Defined.

(** C6, the statement of the specification fails: after step 1 has
    completed, [start] from step 1 makes it [pending] again and keeps its
    output. *)
Lemma restart_keeps_outputs : ¬ output_only_if_completed_always.
Proof.
  intros H.
  assert (reachable restarted_world) as Hreach.
  { unfold restarted_world, step1_done_world, execute_steps, created_world.
    cbn [foldl]. repeat (apply reach_step; [|exact I]). apply reach_init. }
  assert (option_map (λ w, (stepOutput w 1, stepStatuses w !! 1))
            (workflows restarted_world !! "wf-1")
          = Some (Some "{}", Some pending)) as Hfacts
    by (vm_compute; reflexivity).
  destruct (workflows restarted_world !! "wf-1") as [w|] eqn:Hw;
    [|discriminate].
  cbn [option_map] in Hfacts. injection Hfacts as Hout Hst.
  assert (stepStatuses w !! 1 = Some completed) as Hc.
  { apply (H restarted_world Hreach "wf-1" w 1 Hw). exists "{}". exact Hout. }
  congruence.
Qed.

(** ** Creating a workflow *)

(** A [videoSource] that is absent, null, not a string or the empty string
    is turned down before anything happens. *)
Lemma create_rejects_missing (d : RowDefaults) (body : CreateBody)
    (σ : World) :
  truthy (body_videoSource body) = false
  ∨ is_string (body_videoSource body) = false →
  postWorkflow d body σ = (Ok (Failure ValidationError), σ).
Proof.
  intros H. unfold postWorkflow.
  replace (negb (truthy (body_videoSource body))
           || negb (is_string (body_videoSource body))) with true; [done|].
  symmetry. apply orb_true_iff. destruct H as [-> | ->]; auto.
Qed.

(** Any non-empty string is accepted, and stored trimmed, when the
    database assigns a fresh id. *)
Lemma create_accepts_string (d : RowDefaults) (body : CreateBody)
    (σ : World) (src : string) :
  body_videoSource body = JsString src →
  src ≠ "" →
  workflows σ !! new_id d = None →
  ∃ row,
    postWorkflow d body σ
    = (Ok (Success row),
       mkWorld (<[new_id d := row]> (workflows σ)) (workflow_logs σ)
               (queries σ ++ [QInsertWorkflow (new_id d)])
               (clock σ) (ticks σ))
    ∧ videoSource row = trim (trim src)
    ∧ status row = WfCreated
    ∧ stepStatuses row = allPending.
Proof.
  intros Hsrc Hne Hfresh. unfold postWorkflow. rewrite Hsrc.
  cbn [truthy is_string string_of negb orb].
  replace (String.eqb src "") with false
    by (symmetry; by apply String.eqb_neq).
  cbn [negb orb]. unfold bind, createWorkflow, ret, set_workflows.
  rewrite Hfresh. eexists. split; [reflexivity|]. done.
Qed.

(** C7, the code at the failing input.  A [videoSource] of three spaces
    is blank, yet the create handler accepts it: it answers with a new
    workflow whose [videoSource] is the empty string, and the row is in the
    store. *)
Theorem create_accepts_whitespace_only :
  blank "   "
  ∧ ∃ row,
      postWorkflow sample_defaults
        (mkBody (JsString "   ") None None None None)
        (initialWorld sample_clock)
      = (Ok (Success row),
         mkWorld (<["wf-1" := row]> ∅) [] [QInsertWorkflow "wf-1"]
                 sample_clock 0)
      ∧ videoSource row = ""
      ∧ status row = WfCreated.
Proof.
  split; [reflexivity|].
  eexists. split; [reflexivity|]. split; reflexivity.
Qed.

(** * Further properties of the engine *)

(** ** The prerequisite checker, continued *)

Lemma canExecuteStep_in_range (w : Workflow) (s : Z) :
  1 ≤ s ≤ 7 →
  canExecuteStep w s
  = let missing :=
      List.filter (not_completed (stepStatuses w)) (prerequisite_graph s) in
    mkCheck (Nat.eqb (length missing) 0) missing.
Proof.
  intros Hs. unfold canExecuteStep.
  by destruct (getStepDefinition_in_range s Hs) as (d & -> & _ & ->).
Qed.

Lemma prerequisite_graph_earlier (s p : Z) :
  In p (prerequisite_graph s) → 1 ≤ p < s ∧ s ≤ 7.
Proof.
  unfold prerequisite_graph.
  repeat (match goal with
          | |- context [match ?x with _ => _ end] => destruct x
          end); simpl; intros H; intuition lia.
Qed.




(** The table is ordered: every prerequisite of a step is an earlier step.
    So a step of 1..7 whose earlier steps are all completed is executable,
    with nothing missing; step 1 always is. *)
Theorem in_order_executable (w : Workflow) (s : Z) :
  1 ≤ s ≤ 7 →
  (∀ p, 1 ≤ p < s → satisfied w p) →
  canExecuteStep w s = mkCheck true [].
Proof.
  intros Hs Hdone. rewrite canExecuteStep_in_range by done. cbv zeta.
  assert (List.filter (not_completed (stepStatuses w)) (prerequisite_graph s)
          = []) as ->; [|done].
  apply filter_nil_Forall, Forall_forall. intros p Hin.
  apply list_elem_of_In, prerequisite_graph_earlier in Hin as [Hp _].
  apply not_true_iff_false. rewrite not_completed_spec. auto.
Qed.

Lemma in_order_executable_witness :
  canExecuteStep sample_row_step1 2 = mkCheck true [].
Proof.
  apply (in_order_executable sample_row_step1 2); [lia|].
  intros p Hp. assert (p = 1) as -> by lia. reflexivity.
Defined.

(** The step listing has one entry per step, in the order 1 to 7, and each
    entry carries what [getStepStatus] reports for that step: the same name,
    status, executability and missing prerequisites. *)
Theorem getAllStepStatuses_agrees (w : Workflow) :
  List.map ss_step (getAllStepStatuses w) = seqZ 1 7
  ∧ Forall (λ e,
      let info := getStepStatus w (ss_step e) in
      ss_name e = si_name info
      ∧ ss_status e = si_status info
      ∧ ss_canExecute e = si_canExecute info
      ∧ ss_missingPrerequisites e = si_missingPrerequisites info)
    (getAllStepStatuses w).
Proof.
  split; [reflexivity|].
  unfold getAllStepStatuses, STEP_DEFINITIONS. cbn [List.map step name description].
  repeat constructor.
Qed.

(** ** What an operation does to the rows *)

Lemma same_engine_fields_refl (w : Workflow) : same_engine_fields w w.
Proof. reflexivity. Qed.

Lemma row_follows_same (op : Op) (σ σ' : World) (k : string) :
  workflows σ' !! k = workflows σ !! k → row_follows op σ σ' k.
Proof.
  intros H. unfold row_follows. rewrite H.
  destruct (workflows σ !! k) as [w|]; [|by left].
  exists w. split_and!; [done | by apply rc_kept | done].
Qed.

Lemma row_follows_framed (op : Op) (σ σ' : World) (k : string) :
  option_Forall2 same_engine_fields (workflows σ !! k) (workflows σ' !! k) →
  row_follows op σ σ' k.
Proof.
  intros H. unfold row_follows.
  inversion H as [w w' Hsame|]; [|by left].
  exists w'. split_and!; [done | by apply rc_kept | done].
Qed.

Lemma row_follows_changed (op : Op) (σ σ' : World) (w w' : Workflow) :
  workflows σ !! target op = Some w →
  workflows σ' !! target op = Some w' →
  RowChange op w w' →
  row_follows op σ σ' (target op).
Proof.
  intros Hw Hw' Hc. unfold row_follows. rewrite Hw.
  exists w'. split_and!; done.
Qed.

Lemma pauseWorkflow_run (wid : string) (σ : World) (w : Workflow) :
  workflows σ !! wid = Some w →
  let w' := applyUpdates (clock σ (ticks σ)) [UStatus WfPaused] w in
  pauseWorkflow wid σ
  = (Ok w',
     mkWorld (<[wid := w']> (workflows σ)) (workflow_logs σ)
             ((queries σ ++ [QSelectWorkflow wid]) ++ [QUpdateWorkflow wid])
             (clock σ) (S (ticks σ))).
Proof.
  intros Hw w'. unfold pauseWorkflow, bind. rewrite getWorkflow_run, Hw.
  by rewrite (updateWorkflow_run _ _ _ w) by exact Hw.
Qed.

Lemma started_fields (t now : string) (fromStep : option (option Z))
    (w : Workflow) :
  let w' :=
    applyUpdates t
      (([UStatus WfInProgress; UErrorMessage None]
        ++ (if truthy_str (startedAt w) then [] else [UStartedAt now]))
       ++ match fromStep with
          | Some (Some k) =>
              if (1 <=? k) && (k <=? 7)
              then [UStepStatuses (resetFrom k (stepStatuses w));
                    UCurrentStep k]
              else []
          | _ => []
          end) w in
  id w' = id w
  ∧ stepStatuses w' = started_statuses fromStep (stepStatuses w)
  ∧ (∀ n, stepOutput w' n = stepOutput w n)
  ∧ status w' = WfInProgress
  ∧ errorMessage w' = None
  ∧ completedAt w' = completedAt w.
Proof.
  unfold started_statuses.
  destruct (truthy_str (startedAt w)); destruct fromStep as [[k|]|];
    try (by destruct w); destruct ((1 <=? k) && (k <=? 7)); by destruct w.
Qed.

Lemma paused_fields (t : string) (w : Workflow) :
  let w' := applyUpdates t [UStatus WfPaused] w in
  id w' = id w ∧ stepStatuses w' = stepStatuses w
  ∧ (∀ n, stepOutput w' n = stepOutput w n)
  ∧ status w' = WfPaused ∧ errorMessage w' = errorMessage w.
Proof. by destruct w. Qed.

(** Every operation follows [row_follows], at every key. *)
Lemma run_op_rows (op : Op) (σ : World) (k : string) :
  row_follows op σ (run_op op σ) k.
Proof.
  destruct op as [d body|svc wid sp force|wid fromStep|wid|wid|wid message];
    cbn [run_op].
  - (* create *)
    unfold postWorkflow. destruct (_ || _); [by apply row_follows_same|].
    unfold bind, createWorkflow, ret, set_workflows.
    destruct (workflows σ !! new_id d) as [old|] eqn:Hid; cbn [snd].
    + by apply row_follows_same.
    + destruct (decide (k = new_id d)) as [->|Hne].
      * unfold row_follows. cbn [workflows]. rewrite Hid, lookup_insert_eq.
        right. eauto 10.
      * apply row_follows_same. cbn [workflows]. by rewrite lookup_insert_ne.
  - (* execute *)
    destruct (executeRoute svc wid sp force σ) as [r σ'] eqn:Hrun.
    apply executeRoute_post in Hrun. cbn [snd].
    unfold execute_post in Hrun.
    destruct r as [[[wf out]|e]|e]; [| |done].
    + destruct Hrun as (Hinv & Hothers & w & w' & o & _ & Hw & Hw' & _ & Hadm
                        & Hst & Hso & Hso' & _ & Hid & Herr & _ & Hall & _).
      destruct (decide (k = wid)) as [->|Hne];
        [|by apply row_follows_framed, Hothers].
      apply (row_follows_changed (OpExecuteStep svc wid sp force) σ σ' w w');
        [done..|].
      apply rc_step_completed; try done;
        first [ by (rewrite Hso; eexists)
              | by (destruct (allComplete (stepStatuses w'));
                    [destruct Hall|]) ].
    + destruct e; try done.
      * destruct Hrun as [_ ->]. by apply row_follows_same.
      * destruct Hrun as (_ & _ & Hd & _). apply row_follows_same. by rewrite Hd.
      * destruct Hrun as (_ & _ & [Hd _] & _).
        apply row_follows_same. by rewrite Hd.
      * destruct Hrun as (_ & _ & [Hd _] & _).
        apply row_follows_same. by rewrite Hd.
      * destruct Hrun as (Hinv & Hothers & w & w' & Hw & Hw' & Hadm & Hst
                          & Hstat & Herr & Hso & _ & Hid & _).
        destruct (decide (k = wid)) as [->|Hne];
          [|by apply row_follows_framed, Hothers].
        apply (row_follows_changed (OpExecuteStep svc wid sp force) σ σ' w w');
          [done..|].
        by apply (rc_step_failed _ _ _ _ _ _ message).
  - (* start *)
    unfold startRoute.
    destruct (workflows σ !! wid) as [w|] eqn:Hw.
    + rewrite (startWorkflow_run wid fromStep σ w Hw). cbn [snd].
      destruct (decide (k = wid)) as [->|Hne].
      * eapply (row_follows_changed (OpStart wid fromStep)); [exact Hw | |].
        { cbn [target workflows]. apply lookup_insert_eq. }
        destruct (started_fields (clock σ (S (ticks σ))) (clock σ (ticks σ))
                    fromStep w) as (? & ? & ? & ? & ? & ?).
        by apply rc_started.
      * apply row_follows_same. cbn [workflows]. by rewrite lookup_insert_ne.
    + unfold startWorkflow, bind. rewrite getWorkflow_run, Hw.
      by apply row_follows_same.
  - (* pause *)
    unfold pauseRoute.
    destruct (workflows σ !! wid) as [w|] eqn:Hw.
    + rewrite (pauseWorkflow_run wid σ w Hw). cbn [snd].
      destruct (decide (k = wid)) as [->|Hne].
      * eapply (row_follows_changed (OpPause wid)); [exact Hw | |].
        { cbn [target workflows]. apply lookup_insert_eq. }
        destruct (paused_fields (clock σ (ticks σ)) w) as (? & ? & ? & ? & ?).
        by apply rc_paused.
      * apply row_follows_same. cbn [workflows]. by rewrite lookup_insert_ne.
    + unfold pauseWorkflow, bind. rewrite getWorkflow_run, Hw.
      by apply row_follows_same.
  - (* complete *)
    destruct (workflows σ !! wid) as [w|] eqn:Hw.
    + rewrite (completeWorkflow_run wid σ w Hw). cbn [snd].
      destruct (decide (k = wid)) as [->|Hne].
      * eapply (row_follows_changed (OpComplete wid)); [exact Hw | |].
        { cbn [target workflows]. apply lookup_insert_eq. }
        destruct (completeUpdate_fields (clock σ (ticks σ))
                    (clock σ (S (ticks σ))) w)
          as (? & ? & ? & ? & ? & ? & ? & ?).
        by apply rc_completed.
      * apply row_follows_same. cbn [workflows]. by rewrite lookup_insert_ne.
    + unfold completeWorkflow, bind at 1. unfold nowISO.
      match goal with |- row_follows _ _ (updateWorkflow _ ?us ?σ1).2 _ =>
        destruct (updateWorkflow_missing wid us σ1 Hw)
          as (e & σ' & -> & Hsame & _) end.
      apply row_follows_same. cbn [snd]. by rewrite Hsame.
  - (* fail *)
    unfold failWorkflow.
    destruct (workflows σ !! wid) as [w|] eqn:Hw.
    + rewrite (updateWorkflow_run wid _ σ w Hw). cbn [snd].
      destruct (decide (k = wid)) as [->|Hne].
      * eapply (row_follows_changed (OpFail wid message)); [exact Hw | |].
        { cbn [target workflows]. apply lookup_insert_eq. }
        destruct (failUpdate_fields (clock σ (ticks σ)) message w)
          as (? & ? & ? & ? & ? & ? & ? & ?).
        by apply rc_failed.
      * apply row_follows_same. cbn [workflows]. by rewrite lookup_insert_ne.
    + destruct (updateWorkflow_missing wid
                  [UStatus WfError; UErrorMessage (Some message)] σ Hw)
        as (e & σ' & -> & Hsame & _).
      apply row_follows_same. cbn [snd]. by rewrite Hsame.
Qed.

(** An operation never removes a workflow, adds one only when it is a
    create (under the id the database assigns), and leaves the engine
    fields of every workflow other than the one it addresses as they
    were. *)
Theorem operations_keep_other_rows (op : Op) (σ : World) :
  dom (workflows σ) ⊆ dom (workflows (run_op op σ))
  ∧ dom (workflows (run_op op σ))
    ⊆ dom (workflows σ) ∪ match op with
                          | OpCreate d _ => {[new_id d]}
                          | _ => ∅
                          end
  ∧ ∀ k, k ≠ target op →
         option_Forall2 same_engine_fields
           (workflows σ !! k) (workflows (run_op op σ) !! k).
Proof.
  split_and!.
  - intros k [w Hw]%elem_of_dom. apply elem_of_dom.
    pose proof (run_op_rows op σ k) as H. unfold row_follows in H.
    rewrite Hw in H. destruct H as (w' & -> & _). by eexists.
  - intros k [w' Hw']%elem_of_dom. apply elem_of_union.
    pose proof (run_op_rows op σ k) as H. unfold row_follows in H.
    destruct (workflows σ !! k) as [w|] eqn:Hw.
    + left. apply elem_of_dom. by eexists.
    + destruct H as [H|(d & body & ? & ? & ? & ? & ? & -> & -> & _)];
        [congruence|].
      right. by apply elem_of_singleton.
  - intros k Hk.
    pose proof (run_op_rows op σ k) as H. unfold row_follows in H.
    destruct (workflows σ !! k) as [w|] eqn:Hw.
    + destruct H as (w' & -> & _ & Hsame). constructor. auto.
    + destruct H as [-> |(d & body & ? & ? & ? & ? & ? & -> & -> & _)];
        [constructor | done].
Qed.

(** ** Invariants of the reachable stores *)

Lemma reachable_rows (allowed : Op → Prop) (P : string → Workflow → Prop) :
  (∀ d src cfg e b so, P (new_id d) (insertedRow d src cfg e b so)) →
  (∀ op k w w', allowed op → P k w → RowChange op w w' → P k w') →
  ∀ σ, reachable_by allowed σ →
       ∀ k w, workflows σ !! k = Some w → P k w.
Proof.
  intros Hnew Hstep σ Hreach.
  induction Hreach as [clk|op σ _ IH Hop]; intros k w' Hw'.
  - unfold initialWorld in Hw'. cbn [workflows] in Hw'.
    by rewrite lookup_empty in Hw'.
  - pose proof (run_op_rows op σ k) as H. unfold row_follows in H.
    destruct (workflows σ !! k) as [w|] eqn:Hw.
    + destruct H as (w0 & Hw0 & Hc & _).
      rewrite Hw' in Hw0. injection Hw0 as <-.
      apply (Hstep op k w w' Hop); [by apply IH | done].
    + destruct H as [H|(d & body & src & cfg & e & b & so & _ & -> & H)];
        [congruence|].
      rewrite Hw' in H. injection H as ->. apply Hnew.
Qed.







(** In every store reached through the operations the router offers
    (create, execute, start, pause), a workflow whose status is [completed]
    has every step [completed] or [skipped]. *)
Theorem completed_means_all_done (σ : World) (k : string) (w : Workflow) :
  reachable_by router_op σ →
  workflows σ !! k = Some w →
  status w = WfCompleted →
  map_Forall (λ _ st, done_or_skipped st) (stepStatuses w).
Proof.
  intros Hreach Hw. revert k w Hw.
  apply (reachable_rows router_op
           (λ _ w, status w = WfCompleted →
                   map_Forall (λ _ st, done_or_skipped st) (stepStatuses w)));
    [| |exact Hreach].
  - intros d src cfg e b so. discriminate.
  - intros op k w w' Hop IH Hc Hdone.
    destruct Hc as [op w w' Hsame
                   |svc wid sp force w w' _ _ _ Hst _ _ _ Hall
                   |svc wid sp force w w' message _ _ _ _ _ Hstat _
                   |wid fromStep w w' _ _ _ Hstat _ _
                   |wid w w' _ _ _ Hstat _
                   |wid w w' _ _ _ _ _
                   |wid message w w' _ _ _ _ _]; try done; try congruence.
    + apply engine_fields_inv in Hsame as (-> & _ & Hlf & _).
      apply lifecycle_fields_inv in Hlf as (_ & _ & Hstat & _).
      apply IH. congruence.
    + destruct (allComplete (stepStatuses w')) eqn:E;
        [by apply allComplete_spec|].
      destruct Hall as [Hstat _]. rewrite Hst.
      apply map_Forall_insert_2; [by left|]. apply IH. congruence.
Qed.

Lemma completed_means_all_done_witness :
  ∃ w, workflows finished_world !! "wf-1" = Some w
       ∧ map_Forall (λ _ st, done_or_skipped st) (stepStatuses w).
Proof.
  assert (option_map status (workflows finished_world !! "wf-1")
          = Some WfCompleted) as Hfacts by (vm_compute; reflexivity).
  destruct (workflows finished_world !! "wf-1") as [w|] eqn:Hw;
    [|discriminate].
  cbn [option_map] in Hfacts. injection Hfacts as Hst.
  exists w. split; [done|].
  apply (completed_means_all_done finished_world "wf-1" w); [|done..].
  unfold finished_world, execute_steps, created_world.
  cbn [foldl]. repeat (apply reach_step; [|exact I]). apply reach_init.
Defined.

(** In every store reached through the public operations, a workflow whose
    status is [error] has an error message. *)
Theorem error_has_message (σ : World) (k : string) (w : Workflow) :
  reachable σ →
  workflows σ !! k = Some w →
  status w = WfError →
  is_Some (errorMessage w).
Proof.
  intros Hreach Hw. revert k w Hw.
  apply (reachable_rows (λ _, True)
           (λ _ w, status w = WfError → is_Some (errorMessage w)));
    [| |exact Hreach].
  - intros d src cfg e b so. discriminate.
  - intros op k w w' _ IH Hc Herr.
    destruct Hc as [op w w' Hsame
                   |svc wid sp force w w' _ _ _ _ _ _ Hmsg Hall
                   |svc wid sp force w w' message _ _ _ _ _ _ Hmsg
                   |wid fromStep w w' _ _ _ Hstat _ _
                   |wid w w' _ _ _ Hstat _
                   |wid w w' _ _ _ Hstat _
                   |wid message w w' _ _ _ _ Hmsg]; try congruence.
    + apply engine_fields_inv in Hsame as (_ & _ & Hlf & _).
      apply lifecycle_fields_inv in Hlf as (_ & _ & Hstat & -> & _).
      apply IH. congruence.
    + destruct (allComplete (stepStatuses w')); [congruence|].
      destruct Hall as [Hstat _]. rewrite Hmsg. apply IH. congruence.
    + rewrite Hmsg. by eexists.
    + rewrite Hmsg. by eexists.
Qed.

Lemma error_has_message_witness :
  ∃ w, workflows failed_world !! "wf-1" = Some w
       ∧ status w = WfError
       ∧ is_Some (errorMessage w).
Proof.
  assert (option_map status (workflows failed_world !! "wf-1")
          = Some WfError) as Hfacts by (vm_compute; reflexivity).
  destruct (workflows failed_world !! "wf-1") as [w|] eqn:Hw;
    [|discriminate].
  cbn [option_map] in Hfacts. injection Hfacts as Hst.
  exists w. split_and!; [done..|].
  apply (error_has_message failed_world "wf-1" w); [|done..].
  unfold failed_world, execute_steps, created_world.
  cbn [foldl]. repeat (apply reach_step; [|exact I]). apply reach_init.
Defined.

(** Only [start] clears an error message: under any other operation a
    workflow that has an error message still has one afterwards; a
    successful step, even one that completes the workflow, leaves it in
    place. *)
Theorem error_message_sticks (op : Op) (σ : World) (k : string)
    (w : Workflow) :
  (∀ wid fromStep, op ≠ OpStart wid fromStep) →
  workflows σ !! k = Some w →
  is_Some (errorMessage w) →
  ∃ w', workflows (run_op op σ) !! k = Some w'
        ∧ is_Some (errorMessage w').
Proof.
  intros Hop Hw Hmsg.
  pose proof (run_op_rows op σ k) as H. unfold row_follows in H.
  rewrite Hw in H. destruct H as (w' & Hw' & Hc & _).
  exists w'. split; [done|].
  destruct Hc as [op w w' Hsame
                 |svc wid sp force w w' _ _ _ _ _ _ Hsame _
                 |svc wid sp force w w' message _ _ _ _ _ _ Hnew
                 |wid fromStep w w' _ _ _ _ _ _
                 |wid w w' _ _ _ _ Hsame
                 |wid w w' _ _ _ _ Hsame
                 |wid message w w' _ _ _ _ Hnew];
    try (by rewrite Hsame); try (rewrite Hnew; by eexists).
  - apply engine_fields_inv in Hsame as (_ & _ & Hlf & _).
    apply lifecycle_fields_inv in Hlf as (_ & _ & _ & -> & _). done.
  - by destruct (Hop wid fromStep).
Qed.

Lemma error_message_sticks_witness :
  ∃ w', workflows (run_op (OpExecuteStep working_services "wf-1" (Some 1)
                             JsUndefined) failed_world) !! "wf-1" = Some w'
        ∧ is_Some (errorMessage w').
Proof.
  assert (option_map errorMessage (workflows failed_world !! "wf-1")
          = Some (Some "Failed to download video (404)")) as Hfacts
    by (vm_compute; reflexivity).
  destruct (workflows failed_world !! "wf-1") as [w|] eqn:Hw;
    [|discriminate].
  cbn [option_map] in Hfacts. injection Hfacts as Hmsg.
  apply (error_message_sticks _ failed_world "wf-1" w); [done | done |].
  rewrite Hmsg. by eexists.
Defined.

(** ** The log *)



(** ** Requests for a workflow that does not exist *)

Lemma completeWorkflow_missing (wid : string) (σ : World) :
  workflows σ !! wid = None →
  ∃ e σ', completeWorkflow wid σ = (Throw e, σ')
          ∧ workflows σ' = workflows σ
          ∧ workflow_logs σ' = workflow_logs σ.
Proof.
  intros Hw. unfold completeWorkflow, bind at 1. unfold nowISO.
  match goal with |- context [updateWorkflow wid ?us ?σ1] =>
    destruct (updateWorkflow_missing wid us σ1 Hw)
      as (e & σ' & -> & H1 & H2 & _) end.
  by exists e, σ'.
Qed.

(** On an id that has no row, [updateStepStatus], [startWorkflow] and
    [pauseWorkflow] throw 'Workflow not found', [completeWorkflow] and
    [failWorkflow] throw the update's failure, and the handlers that read
    the workflow answer [NotFound]; none of them creates the row or writes
    to the log. *)
Theorem missing_workflow_untouched (wid : string) (σ : World) :
  workflows σ !! wid = None →
  (∀ s st, (updateStepStatus wid s st σ).1 = Throw "Workflow not found"
           ∧ data_unchanged σ (updateStepStatus wid s st σ).2)
  ∧ (∀ fromStep, (startWorkflow wid fromStep σ).1 = Throw "Workflow not found"
                 ∧ data_unchanged σ (startWorkflow wid fromStep σ).2)
  ∧ ((pauseWorkflow wid σ).1 = Throw "Workflow not found"
     ∧ data_unchanged σ (pauseWorkflow wid σ).2)
  ∧ ((∃ e, (completeWorkflow wid σ).1 = Throw e)
     ∧ data_unchanged σ (completeWorkflow wid σ).2)
  ∧ (∀ message, (∃ e, (failWorkflow wid message σ).1 = Throw e)
                ∧ data_unchanged σ (failWorkflow wid message σ).2)
  ∧ (∀ svc s force, 1 ≤ s ≤ 7 →
       (executeRoute svc wid (Some s) force σ).1 = Ok (Failure NotFound)
       ∧ data_unchanged σ (executeRoute svc wid (Some s) force σ).2)
  ∧ (getRoute wid σ).1 = Ok (Failure NotFound)
  ∧ (stepsRoute wid σ).1 = Ok (Failure NotFound).
Proof.
  intros Hw.
  split.
  { intros s st. unfold updateStepStatus, bind.
    by rewrite getWorkflow_run, Hw. }
  split.
  { intros fromStep. unfold startWorkflow, bind.
    by rewrite getWorkflow_run, Hw. }
  split.
  { unfold pauseWorkflow, bind. by rewrite getWorkflow_run, Hw. }
  split.
  { destruct (completeWorkflow_missing wid σ Hw) as (e & σ' & -> & H1 & H2).
    split; [by eexists | by split]. }
  split.
  { intros message. unfold failWorkflow.
    destruct (updateWorkflow_missing wid
                [UStatus WfError; UErrorMessage (Some message)] σ Hw)
      as (e & σ' & -> & H1 & H2 & _).
    split; [by eexists | by split]. }
  split.
  { intros svc s force Hs. unfold executeRoute.
    replace (invalidStep (Some s)) with false
      by (symmetry; apply orb_false_iff; lia).
    unfold bind. by rewrite getWorkflow_run, Hw. }
  split.
  { unfold getRoute, bind. by rewrite getWorkflow_run, Hw. }
  unfold stepsRoute, bind. by rewrite getWorkflow_run, Hw.
Qed.

Lemma missing_workflow_untouched_witness :
  (startWorkflow "wf-2" None created_world).1 = Throw "Workflow not found"
  ∧ data_unchanged created_world (startWorkflow "wf-2" None created_world).2.
Proof.
  assert (workflows created_world !! "wf-2" = None) as Hw
    by (vm_compute; reflexivity).
  destruct (missing_workflow_untouched "wf-2" created_world Hw)
    as (_ & Hstart & _).
  apply Hstart.
Defined.

(** ** Admitted requests *)

(** An admitted request for a step of an existing workflow reaches the
    collaborator, and the answer follows what the collaborator did. *)
Lemma executeRoute_admitted (svc : Services) (wid : string) (s : Z)
    (force : JsValue) (σ : World) (w : Workflow) :
  workflows σ !! wid = Some w →
  1 ≤ s ≤ 7 →
  admitted w s force →
  (∃ wf o σ' σ2,
     executeRoute svc wid (Some s) force σ = (Ok (Success (wf, Some o)), σ')
     ∧ dispatch svc s (in_progress_row σ s w) (in_progress_world σ wid s w)
       = (Ok (Some o), σ2)
     ∧ workflows σ' !! wid = Some wf
     ∧ stepStatuses wf = <[s := completed]> (stepStatuses w))
  ∨ (∃ message σ' σ2 wf,
       executeRoute svc wid (Some s) force σ
         = (Ok (Failure (ExecutionError message)), σ')
       ∧ dispatch svc s (in_progress_row σ s w) (in_progress_world σ wid s w)
         = (Throw message, σ2)
       ∧ workflows σ' !! wid = Some wf
       ∧ status wf = WfError).
Proof.
  intros Hw Hs Hadm.
  destruct (executeRoute svc wid (Some s) force σ) as [r σ'] eqn:Hrun.
  pose proof (executeRoute_post _ _ _ _ _ _ _ Hrun) as Hpost.
  unfold execute_post in Hpost. cbn [stepNumber] in Hpost.
  destruct r as [[[wf out]|e]|e]; [| |done].
  { destruct Hpost as (_ & _ & w0 & w' & o & -> & Hw0 & Hw' & -> & _ & Hst
                       & _ & _ & _ & _ & _ & _ & _ & _ & σ2 & Hdisp).
    rewrite Hw in Hw0. injection Hw0 as <-.
    left. by exists w', o, σ', σ2. }
  destruct e as [| | |ms| |message]; try done.
  - destruct Hpost as [Hinv _]. cbn [invalidStep] in Hinv.
    apply orb_true_iff in Hinv. lia.
  - destruct Hpost as (_ & Hnone & _). congruence.
  - destruct Hpost as (_ & Hf & _ & w0 & Hw0 & Hcan).
    rewrite Hw in Hw0. injection Hw0 as <-.
    destruct (Hadm Hf) as [Hc _]. rewrite Hcan in Hc. discriminate.
  - destruct Hpost as (_ & Hf & _ & w0 & Hw0 & Hdone).
    rewrite Hw in Hw0. injection Hw0 as <-.
    destruct (Hadm Hf) as [_ Hnc]. done.
  - destruct Hpost as (_ & _ & w0 & w' & Hw0 & Hw' & _ & _ & Hstat & _ & _
                       & _ & _ & _ & _ & _ & σ2 & Hdisp).
    rewrite Hw in Hw0. injection Hw0 as <-.
    right. by exists message, σ', σ2, w'.
Qed.

(** The step-status answer predicts the execute handler.  For a step the
    status handler reports on, a request to execute it without [force] is
    turned down with exactly the reported missing prerequisites when it is
    reported not executable, is turned down as already completed when it is
    reported executable and [completed], and otherwise reaches the
    collaborator. *)
Theorem status_predicts_execute (svc : Services) (wid : string)
    (sp : option Z) (force : JsValue) (σ σ1 : World) (info : StepInfo) :
  getStepRoute wid sp σ = (Ok (Success info), σ1) →
  truthy force = false →
  let r := (executeRoute svc wid sp force σ1).1 in
  if negb (si_canExecute info)
  then r = Ok (Failure (PrerequisiteError (si_missingPrerequisites info)))
  else if bool_decide (si_status info = Some completed)
  then r = Ok (Failure AlreadyCompleted)
  else (∃ wf o, r = Ok (Success (wf, Some o)))
       ∨ ∃ message, r = Ok (Failure (ExecutionError message)).
Proof.
  unfold getStepRoute, bind. rewrite getWorkflow_run.
  destruct (workflows σ !! wid) as [w|] eqn:Hw; [|discriminate].
  destruct (invalidStep sp) eqn:Hinv; [discriminate|].
  unfold ret. intros [= <- <-] Hf.
  destruct (invalidStep_false sp Hinv) as (s & -> & Hs).
  cbn [stepNumber getStepStatus si_canExecute si_missingPrerequisites
       si_status].
  destruct (canExecute (canExecuteStep w s)) eqn:Hc; cbn [negb].
  - case_bool_decide as Hdone.
    + unfold executeRoute. rewrite Hinv. cbn [stepNumber].
      unfold bind. rewrite getWorkflow_run. cbn [workflows]. rewrite Hw.
      unfold checkStepPrerequisites. cbn [sc_canExecute]. rewrite Hc, Hf.
      cbn [negb andb]. by rewrite bool_decide_eq_true_2.
    + match goal with |- context [executeRoute svc wid (Some s) force ?σ0] =>
        destruct (executeRoute_admitted svc wid s force σ0 w)
          as [(wf & o & σ' & σ2 & -> & _)|(m & σ' & σ2 & wf & -> & _)] end;
        [done | done | by intros _ | left; eauto | right; eauto].
  - unfold executeRoute. rewrite Hinv. cbn [stepNumber].
    unfold bind. rewrite getWorkflow_run. cbn [workflows]. rewrite Hw.
    unfold checkStepPrerequisites.
    cbn [sc_canExecute sc_missingPrerequisites]. by rewrite Hc, Hf.
Qed.

Lemma status_predicts_execute_witness :
  ∃ info σ1,
    getStepRoute "wf-1" (Some 2) created_world = (Ok (Success info), σ1)
    ∧ (executeRoute working_services "wf-1" (Some 2) JsUndefined σ1).1
      = Ok (Failure (PrerequisiteError [1])).
Proof.
  destruct (getStepRoute "wf-1" (Some 2) created_world) as [r σ1] eqn:Hget.
  assert (r = (getStepRoute "wf-1" (Some 2) created_world).1) as Hr
    by (by rewrite Hget).
  vm_compute in Hr. subst r.
  eexists _, σ1. split; [reflexivity|].
  exact (status_predicts_execute working_services "wf-1" (Some 2) JsUndefined
           created_world σ1 _ Hget eq_refl).
Defined.

(** ** What a step reads *)

Lemma missing_input_in_progress (σ : World) (s : Z) (w : Workflow) :
  missing_input s (in_progress_row σ s w) = missing_input s w.
Proof. unfold in_progress_row. by destruct w. Qed.

Lemma dispatch_missing_input (svc : Services) (s : Z) (row : Workflow)
    (σ : World) (message : string) :
  missing_input s row = Some message →
  dispatch svc s row σ = (Throw message, σ).
Proof.
  unfold missing_input, dispatch. intros H.
  destruct s as [|p|p]; try discriminate H;
    do 3 (try (destruct p as [p|p|]; try discriminate H));
    unfold bind, executeStep2, executeStep3, executeStep4, executeStep5,
           executeStep6, executeStep7;
    match type of H with (if ?c then _ else _) = _ => destruct c end;
    first [discriminate H | by injection H as <-].
Qed.

(** [force] lets a step past the status checks, not past what it reads.
    A step of 2..7 that is admitted (by [force] or by the checks) while the
    workflow lacks its input (the video path or name, or the output of the
    step it builds on) fails with the step's own message before any service
    is called, whatever the services are, and leaves the workflow in status
    [error]. *)
Theorem step_needs_its_input (svc : Services) (wid : string) (s : Z)
    (force : JsValue) (σ : World) (w : Workflow) (message : string) :
  workflows σ !! wid = Some w →
  admitted w s force →
  missing_input s w = Some message →
  ∃ σ' w',
    executeRoute svc wid (Some s) force σ
      = (Ok (Failure (ExecutionError message)), σ')
    ∧ workflows σ' !! wid = Some w'
    ∧ status w' = WfError.
Proof.
  intros Hw Hadm Hmiss.
  assert (1 ≤ s ≤ 7) as Hs.
  { unfold missing_input in Hmiss.
    destruct s as [|p|p]; try discriminate Hmiss;
      do 3 (try (destruct p as [p|p|]; try discriminate Hmiss)); lia. }
  rewrite <- (missing_input_in_progress σ) in Hmiss.
  pose proof (dispatch_missing_input svc s _ (in_progress_world σ wid s w)
                message Hmiss) as Hdisp.
  destruct (executeRoute_admitted svc wid s force σ w Hw Hs Hadm)
    as [(wf & o & σ' & σ2 & _ & Hd & _)|(m & σ' & σ2 & wf & Hrun & Hd & Hwf
                                         & Hstat)];
    [congruence|].
  assert (m = message) as -> by congruence.
  by exists σ', wf.
Qed.

Lemma step_needs_its_input_witness :
  ∃ σ' w',
    executeRoute working_services "wf-1" (Some 3) (JsBool true) created_world
      = (Ok (Failure (ExecutionError
                        "No transcript available. Run step 2 first.")), σ')
    ∧ workflows σ' !! "wf-1" = Some w'
    ∧ status w' = WfError.
Proof.
  assert (option_map step2Output (workflows created_world !! "wf-1")
          = Some None) as Hfacts by (vm_compute; reflexivity).
  destruct (workflows created_world !! "wf-1") as [w|] eqn:Hw;
    [|discriminate].
  cbn [option_map] in Hfacts. injection Hfacts as Hout.
  apply (step_needs_its_input working_services "wf-1" 3 (JsBool true)
           created_world w); [done | by intros [=] |].
  unfold missing_input. by rewrite Hout.
Defined.

(** ** Pausing *)

Lemma canExecuteStep_statuses (w w' : Workflow) (s : Z) :
  stepStatuses w' = stepStatuses w → canExecuteStep w' s = canExecuteStep w s.
Proof. intros H. unfold canExecuteStep. by rewrite H. Qed.

(** Pausing is advisory.  [pauseWorkflow] on an existing workflow sets its
    status to [paused] and keeps the step statuses, so a step that was
    admitted before the pause is admitted after it, and a request to execute
    it on the paused workflow still reaches the collaborator. *)
Theorem pause_is_advisory (svc : Services) (wid : string) (s : Z)
    (force : JsValue) (σ : World) (w : Workflow) :
  workflows σ !! wid = Some w →
  1 ≤ s ≤ 7 →
  admitted w s force →
  let σp := (pauseRoute wid σ).2 in
  (∃ wp, workflows σp !! wid = Some wp
         ∧ status wp = WfPaused
         ∧ stepStatuses wp = stepStatuses w)
  ∧ ((∃ wf o, (executeRoute svc wid (Some s) force σp).1
              = Ok (Success (wf, Some o)))
     ∨ ∃ message, (executeRoute svc wid (Some s) force σp).1
                  = Ok (Failure (ExecutionError message))).
Proof.
  intros Hw Hs Hadm σp. subst σp. unfold pauseRoute.
  rewrite (pauseWorkflow_run wid σ w Hw). cbn [snd].
  destruct (paused_fields (clock σ (ticks σ)) w) as (_ & Hst & _ & Hstat & _).
  set (wp := applyUpdates _ _ w) in *.
  split.
  { exists wp. cbn [workflows]. by rewrite lookup_insert_eq. }
  match goal with |- context [executeRoute svc wid (Some s) force ?σ0] =>
    destruct (executeRoute_admitted svc wid s force σ0 wp)
      as [(wf & o & σ' & σ2 & -> & _)|(m & σ' & σ2 & wf & -> & _)] end.
  - cbn [workflows]. apply lookup_insert_eq.
  - done.
  - intros Hf. destruct (Hadm Hf) as [Hc Hn].
    by rewrite (canExecuteStep_statuses w wp), Hst.
  - left. eauto.
  - right. eauto.
Qed.

Lemma pause_is_advisory_witness :
  ∃ wp, workflows (pauseRoute "wf-1" created_world).2 !! "wf-1" = Some wp
        ∧ status wp = WfPaused.
Proof.
  assert (option_map (λ w, stepStatuses w !! 1)
            (workflows created_world !! "wf-1")
          = Some (Some pending)) as Hfacts
    by (vm_compute; reflexivity).
  destruct (workflows created_world !! "wf-1") as [w|] eqn:Hw;
    [|discriminate].
  cbn [option_map] in Hfacts. injection Hfacts as Hst.
  assert (admitted w 1 JsUndefined) as Hadm
    by (intros _; rewrite Hst; by split).
  pose proof (pause_is_advisory working_services "wf-1" 1 JsUndefined
                created_world w Hw ltac:(lia) Hadm) as H.
  cbv zeta in H. destruct H as [(wp & ? & ? & _) _]. by exists wp.
Defined.

(** ** Deleting and creating *)

Lemma filter_filter_same {A} (f : A → bool) (l : list A) :
  List.filter f (List.filter f l) = List.filter f l.
Proof.
  induction l as [|x l IH]; [done|]. cbn [List.filter].
  destruct (f x) eqn:Hx; [|done]. cbn [List.filter]. by rewrite Hx, IH.
Qed.

(** [DELETE /:id] answers 204 whether or not the workflow exists.
    Afterwards the workflow cannot be read any more, every other workflow
    is exactly as it was, the log rows of other workflows are kept, and a
    second delete changes nothing. *)
Theorem delete_then_get (wid : string) (σ : World) :
  let σ' := (deleteRoute wid σ).2 in
  (deleteRoute wid σ).1 = Ok (Success tt)
  ∧ (getWorkflow wid σ').1 = Ok None
  ∧ (getRoute wid σ').1 = Ok (Failure NotFound)
  ∧ (∀ k, k ≠ wid → workflows σ' !! k = workflows σ !! k)
  ∧ (∀ l, In l (workflow_logs σ) → log_workflowId l ≠ wid →
          In l (workflow_logs σ'))
  ∧ data_unchanged σ' (deleteRoute wid σ').2.
Proof.
  unfold deleteRoute, deleteWorkflow, bind, ret. cbn [fst snd].
  split; [done|]. split.
  { rewrite getWorkflow_run. cbn [fst workflows]. by rewrite lookup_delete_eq. }
  split.
  { unfold getRoute, bind. rewrite getWorkflow_run. cbn [workflows].
    by rewrite lookup_delete_eq. }
  split.
  { intros k Hk. cbn [workflows]. by rewrite lookup_delete_ne. }
  split.
  { intros l Hin Hne. cbn [workflow_logs]. apply filter_In. split; [done|].
    apply negb_true_iff. by apply String.eqb_neq. }
  unfold data_unchanged. cbn [workflows workflow_logs].
  split; [apply delete_delete_eq | apply filter_filter_same].
Qed.

(** A workflow that the create handler has answered with can be read back
    under its id: [GET /:id] returns it.  It is in status [created], and
    its step listing shows seven pending steps of which only the first is
    executable. *)
Theorem create_then_get (d : RowDefaults) (body : CreateBody)
    (σ σ' : World) (row : Workflow) :
  postWorkflow d body σ = (Ok (Success row), σ') →
  (getRoute (new_id d) σ').1 = Ok (Success row)
  ∧ id row = new_id d
  ∧ status row = WfCreated
  ∧ List.map (λ e, (ss_step e, ss_status e, ss_canExecute e))
             (getAllStepStatuses row)
    = [ (1, Some pending, true); (2, Some pending, false);
        (3, Some pending, false); (4, Some pending, false);
        (5, Some pending, false); (6, Some pending, false);
        (7, Some pending, false) ].
Proof.
  unfold postWorkflow. destruct (_ || _); [discriminate|].
  unfold bind, createWorkflow, ret, set_workflows.
  destruct (workflows σ !! new_id d); [discriminate|].
  intros [= <- <-]. split_and!.
  - unfold getRoute, bind. rewrite getWorkflow_run. cbn [workflows].
    by rewrite lookup_insert_eq.
  - done.
  - done.
  - vm_compute. reflexivity.
Qed.

Lemma create_then_get_witness :
  ∃ row σ',
    postWorkflow sample_defaults sample_body (initialWorld sample_clock)
      = (Ok (Success row), σ')
    ∧ (getRoute "wf-1" σ').1 = Ok (Success row)
    ∧ status row = WfCreated.
Proof.
  destruct (postWorkflow sample_defaults sample_body
              (initialWorld sample_clock)) as [r σ'] eqn:Hrun.
  assert (r = (postWorkflow sample_defaults sample_body
                 (initialWorld sample_clock)).1) as Hr by (by rewrite Hrun).
  vm_compute in Hr. subst r.
  destruct (create_then_get _ _ _ _ _ Hrun) as (Hget & _ & Hst & _).
  eexists _, σ'. split; [reflexivity|]. by split.
Defined.

(** ** The first step *)

Lemma prechecks_pass (w : Workflow) (s : Z) (force : JsValue) :
  admitted w s force →
  negb (canExecute (canExecuteStep w s)) && negb (truthy force) = false
  ∧ bool_decide (stepStatuses w !! s = Some completed) && negb (truthy force)
    = false.
Proof.
  intros Hadm. destruct (truthy force) eqn:Hf.
  - by rewrite !andb_false_r.
  - destruct (Hadm Hf) as [-> Hn].
    by rewrite bool_decide_eq_false_2.
Qed.

Lemma applyUpdates_keeps_video (t : string) (us : list FieldUpdate)
    (w : Workflow) :
  Forall keeps_video us →
  videoPath (applyUpdates t us w) = videoPath w
  ∧ videoName (applyUpdates t us w) = videoName w
  ∧ videoId (applyUpdates t us w) = videoId w.
Proof.
  unfold applyUpdates. intros H.
  assert (videoPath (set_updatedAt t w) = videoPath w
          ∧ videoName (set_updatedAt t w) = videoName w
          ∧ videoId (set_updatedAt t w) = videoId w) as Hbase
    by (by destruct w).
  revert Hbase. generalize (set_updatedAt t w) as w0.
  induction H as [|u us Hu _ IH]; intros w0 Hbase; [done|].
  cbn [foldl]. apply IH. destruct Hbase as (H1 & H2 & H3).
  destruct u as [| | | | | | |n j| | |]; try done; try (by destruct w0).
  destruct w0. unfold applyField, set_stepOutput.
  destruct n as [|p|p]; try done.
  do 3 (try (destruct p as [p|p|]; try done)).
Qed.

(** The success path of the execute handler, from what the collaborator
    left in the store: the engine's own updates keep the video fields. *)
Lemma executeRoute_success_row (svc : Services) (wid : string) (s : Z)
    (force : JsValue) (σ σ2 : World) (w w2 : Workflow) (o : Json) :
  workflows σ !! wid = Some w →
  1 ≤ s ≤ 7 →
  admitted w s force →
  dispatch svc s (in_progress_row σ s w) (in_progress_world σ wid s w)
    = (Ok (Some o), σ2) →
  workflows σ2 !! wid = Some w2 →
  ∃ wf σ',
    executeRoute svc wid (Some s) force σ = (Ok (Success (wf, Some o)), σ')
    ∧ workflows σ' !! wid = Some wf
    ∧ videoPath wf = videoPath w2
    ∧ videoName wf = videoName w2
    ∧ videoId wf = videoId w2.
Proof.
  intros Hw Hs Hadm Hdisp Hw2.
  destruct (prechecks_pass w s force Hadm) as [Hpre Hdone].
  destruct (executeRoute svc wid (Some s) force σ) as [r σ'] eqn:Hrun.
  unfold executeRoute in Hrun.
  replace (invalidStep (Some s)) with false in Hrun
    by (symmetry; apply orb_false_iff; lia).
  cbn [stepNumber] in Hrun. unfold bind at 1 in Hrun.
  rewrite getWorkflow_run, Hw in Hrun.
  unfold checkStepPrerequisites in Hrun.
  cbn [sc_canExecute sc_missingPrerequisites] in Hrun.
  rewrite Hpre in Hrun. cbv zeta in Hrun.
  match type of Hrun with
  | context [if ?c then ret (Failure AlreadyCompleted) else _] =>
      replace c with false in Hrun by (symmetry; exact Hdone)
  end.
  unfold bind at 1 in Hrun.
  rewrite (updateStepStatus_run wid s in_progress _ w) in Hrun by exact Hw.
  cbn [workflows workflow_logs queries clock ticks] in Hrun.
  destruct (decide (in_progress = in_progress)) as [_|]; [|done].
  unfold bind at 1 in Hrun. rewrite logWorkflowProgress_run in Hrun.
  cbn [workflows workflow_logs queries clock ticks] in Hrun.
  unfold try_catch in Hrun. unfold bind at 1 in Hrun.
  match type of Hrun with context [dispatch svc s ?r0 ?w0] =>
    change (dispatch svc s r0 w0)
      with (dispatch svc s (in_progress_row σ s w)
                     (in_progress_world σ wid s w)) in Hrun end.
  rewrite Hdisp in Hrun.
  unfold bind at 1 in Hrun.
  rewrite (updateWorkflow_run wid _ σ2 w2) in Hrun by exact Hw2.
  destruct (applyUpdates_keeps_video (clock σ2 (ticks σ2)) [UStepOutput s o] w2)
    as (Hp3 & Hn3 & Hi3); [by repeat constructor|].
  set (w3 := applyUpdates _ [UStepOutput s o] w2) in *.
  unfold bind at 1 in Hrun.
  rewrite (updateStepStatus_run wid s completed _ w3) in Hrun
    by (cbn [workflows]; apply lookup_insert_eq).
  cbn [workflows workflow_logs queries clock ticks] in Hrun.
  destruct (decide (completed = in_progress)) as [|_]; [done|].
  match type of Hrun with context [applyUpdates ?t ?us w3] =>
    destruct (applyUpdates_keeps_video t us w3) as (Hp4 & Hn4 & Hi4);
      [by repeat constructor|];
    set (w4 := applyUpdates t us w3) in * end.
  unfold bind at 1 in Hrun. rewrite logWorkflowProgress_run in Hrun.
  cbn [workflows workflow_logs queries clock ticks] in Hrun.
  destruct (allComplete (stepStatuses w4)).
  - unfold bind at 1 in Hrun.
    rewrite (completeWorkflow_run wid _ w4) in Hrun
      by (cbn [workflows]; apply lookup_insert_eq).
    cbn [workflows workflow_logs queries clock ticks] in Hrun.
    match type of Hrun with context [applyUpdates ?t ?us w4] =>
      destruct (applyUpdates_keeps_video t us w4) as (Hp5 & Hn5 & Hi5);
        [by repeat constructor|];
      set (w5 := applyUpdates t us w4) in * end.
    unfold ret in Hrun. injection Hrun as <- <-.
    exists w5. eexists. split; [reflexivity|].
    cbn [workflows]. rewrite lookup_insert_eq.
    split_and!; congruence.
  - unfold bind at 1 in Hrun. unfold ret in Hrun. injection Hrun as <- <-.
    exists w4. eexists. split; [reflexivity|].
    cbn [workflows]. rewrite lookup_insert_eq.
    split_and!; congruence.
Qed.

(** When the collaborator of step 1 returns, for a workflow stored under
    its own id, the execute handler answers with the collaborator's output;
    the workflow then carries the resolved video path and name and that
    output, step 1 is [completed], and step 2 has become executable. *)
Theorem step1_unlocks_step2 (svc : Services) (wid : string)
    (force : JsValue) (σ : World) (w : Workflow) (a : Acquired) :
  workflows σ !! wid = Some w →
  id w = wid →
  admitted w 1 force →
  acquireVideo svc (in_progress_row σ 1 w) = inr a →
  ∃ wf σ',
    executeRoute svc wid (Some 1) force σ
      = (Ok (Success (wf, Some (acq_output a))), σ')
    ∧ workflows σ' !! wid = Some wf
    ∧ videoPath wf = Some (acq_videoPath a)
    ∧ videoName wf = Some (acq_videoName a)
    ∧ step1Output wf = Some (acq_output a)
    ∧ stepStatuses wf !! 1 = Some completed
    ∧ canExecuteStep wf 2 = mkCheck true [].
Proof.
  intros Hw Hid Hadm Hacq.
  destruct (in_progress_row_fields σ 1 w) as (_ & _ & Hid1).
  assert (workflows (in_progress_world σ wid 1 w) !! id (in_progress_row σ 1 w)
          = Some (in_progress_row σ 1 w)) as Hrow.
  { unfold in_progress_world. cbn [workflows].
    rewrite Hid1, Hid. apply lookup_insert_eq. }
  set (us := [UVideoPath (acq_videoPath a); UVideoName (acq_videoName a)]
             ++ match acq_videoId a with
                | Some v => [UVideoId v]
                | None => []
                end).
  pose proof (updateWorkflow_run _ us _ _ Hrow) as Hupd.
  match type of Hupd with _ = (Ok ?r, ?w0) =>
    set (w2 := r) in *; set (σ2 := w0) in * end.
  assert (dispatch svc 1 (in_progress_row σ 1 w) (in_progress_world σ wid 1 w)
          = (Ok (Some (acq_output a)), σ2)) as Hdisp.
  { unfold dispatch, bind at 1. unfold executeStep1. rewrite Hacq.
    unfold bind at 1. fold us. by rewrite Hupd. }
  assert (workflows σ2 !! wid = Some w2) as Hw2.
  { subst σ2. cbn [workflows]. rewrite Hid1, Hid. apply lookup_insert_eq. }
  destruct (executeRoute_success_row svc wid 1 force σ σ2 w w2 _ Hw
              ltac:(lia) Hadm Hdisp Hw2)
    as (wf & σ' & Hrun & Hwf & Hp & Hn & _).
  exists wf, σ'. split; [exact Hrun|]. split; [exact Hwf|].
  pose proof (executeRoute_post _ _ _ _ _ _ _ Hrun) as Hpost.
  destruct Hpost as (_ & _ & w0 & w' & o & [= <-] & Hw0 & Hw' & <- & _ & Hst
                     & Hso & _).
  rewrite Hw in Hw0. injection Hw0 as <-.
  cbn [stepNumber] in Hst, Hso.
  assert (videoPath w2 = Some (acq_videoPath a)
          ∧ videoName w2 = Some (acq_videoName a)) as [Hp2 Hn2].
  { subst w2 us. unfold in_progress_row.
    destruct (acq_videoId a); by destruct w. }
  assert (stepStatuses wf !! 1 = Some completed) as Hc
    by (rewrite Hst; apply lookup_insert_eq).
  split; [congruence|]. split; [congruence|].
  split; [exact Hso|]. split; [exact Hc|].
  rewrite canExecuteStep_in_range by lia. cbv zeta.
  cbn [prerequisite_graph List.filter]. unfold not_completed.
  by rewrite bool_decide_eq_true_2.
Qed.

Lemma step1_unlocks_step2_witness :
  ∃ wf σ',
    executeRoute working_services "wf-1" (Some 1) JsUndefined created_world
      = (Ok (Success (wf, Some "{}")), σ')
    ∧ videoPath wf = Some "/data/videos/a.mp4"
    ∧ canExecuteStep wf 2 = mkCheck true [].
Proof.
  assert (option_map (λ w, (id w, stepStatuses w !! 1))
            (workflows created_world !! "wf-1")
          = Some ("wf-1", Some pending)) as Hfacts
    by (vm_compute; reflexivity).
  destruct (workflows created_world !! "wf-1") as [w|] eqn:Hw;
    [|discriminate].
  cbn [option_map] in Hfacts. injection Hfacts as Hid Hst.
  assert (admitted w 1 JsUndefined) as Hadm
    by (intros _; rewrite Hst; by split).
  destruct (step1_unlocks_step2 working_services "wf-1" JsUndefined
              created_world w
              (mkAcquired "/data/videos/a.mp4" "a" None "{}") Hw Hid Hadm
              eq_refl)
    as (wf & σ' & Hrun & _ & Hp & _ & _ & _ & Hc).
  by exists wf, σ'.
Defined.

(** ** Restarting *)

(** Restarting from step [k] blocks what depends on it: after
    [start(id, k)], a step one of whose prerequisites is [k] or a later step
    is turned down, unless forced, with that prerequisite among the missing
    ones, whatever its status was before. *)
Theorem restart_blocks_dependents (svc : Services) (wid : string)
    (k s p : Z) (force : JsValue) (σ : World) (w : Workflow) :
  workflows σ !! wid = Some w →
  1 ≤ k ≤ 7 →
  In p (prerequisite_graph s) →
  k ≤ p →
  truthy force = false →
  ∃ ms,
    (executeRoute svc wid (Some s) force
       (startRoute wid (Some (Some k)) σ).2).1
    = Ok (Failure (PrerequisiteError ms))
    ∧ In p ms.
Proof.
  intros Hw Hk Hin Hle Hf.
  destruct (prerequisite_graph_earlier s p Hin) as [Hp Hs].
  unfold startRoute. rewrite (startWorkflow_run wid (Some (Some k)) σ w Hw).
  cbn [snd].
  destruct (started_fields (clock σ (S (ticks σ))) (clock σ (ticks σ))
              (Some (Some k)) w) as (_ & Hst & _).
  set (w' := applyUpdates _ _ w) in *.
  unfold started_statuses in Hst.
  replace ((1 <=? k) && (k <=? 7)) with true in Hst
    by (symmetry; apply andb_true_iff; lia).
  assert (In p (missingPrerequisites (canExecuteStep w' s))) as Hmiss.
  { rewrite canExecuteStep_in_range by lia. cbv zeta.
    cbn [missingPrerequisites]. apply filter_In. split; [done|].
    apply not_completed_spec. unfold satisfied.
    rewrite Hst, lookup_resetFrom, decide_True by lia. discriminate. }
  assert (canExecute (canExecuteStep w' s) = false) as Hc.
  { revert Hmiss. rewrite canExecuteStep_in_range by lia. cbv zeta.
    cbn [missingPrerequisites canExecute].
    by destruct (List.filter _ _). }
  exists (missingPrerequisites (canExecuteStep w' s)). split; [|done].
  unfold executeRoute.
  replace (invalidStep (Some s)) with false
    by (symmetry; apply orb_false_iff; lia).
  cbn [stepNumber]. unfold bind. rewrite getWorkflow_run.
  cbn [workflows]. rewrite lookup_insert_eq.
  unfold checkStepPrerequisites. cbn [sc_canExecute sc_missingPrerequisites].
  by rewrite Hc, Hf.
Qed.

Lemma restart_blocks_dependents_witness :
  ∃ ms,
    (executeRoute working_services "wf-1" (Some 6) JsUndefined
       (startRoute "wf-1" (Some (Some 4)) finished_world).2).1
    = Ok (Failure (PrerequisiteError ms))
    ∧ In 4 ms.
Proof.
  destruct (workflows finished_world !! "wf-1") as [w|] eqn:Hw;
    [|by vm_compute in Hw].
  apply (restart_blocks_dependents working_services "wf-1" 4 6 4 JsUndefined
           finished_world w Hw); [lia | | lia | reflexivity].
  cbn. auto.
Defined.
